(** * PageRank: the transition model and the two estimators of [test2.py]

    A shallow embedding of [transition_model], [sample_pagerank] and
    [iterate_pagerank].

    - A Python [dict] is an association list in insertion order with
      pairwise distinct keys; a Python [set] of page names is a
      [gset string]; a Python [int] is a [Z].
    - The arithmetic on [float] values is an interface ([PyFloat]): the
      program is written once against it.  Theorems about the *shape* of a
      result hold for every implementation of the interface.  Theorems
      about *sums* and *convergence* are proved for the exact rational
      implementation [ExactQ], in which no operation rounds.
    - Exceptions, [print] and the [random] module are effects of a small
      state-and-error monad [M]; the [while] loop of [iterate_pagerank]
      takes fuel. *)

From Stdlib Require Import ZArith QArith Qabs Qround Lqa Lia.
From Stdlib Require PrimFloat SpecFloat FloatOps.
From stdpp Require Import base list strings gmap sets sorting.

Local Open Scope Z_scope.

(** ** Python data *)

(** [dict]: keys are page names, in insertion order. *)
Abbreviation dict V := (list (string * V)).

(** [d.get(k)], [None] when the key is missing. *)
Fixpoint dict_get {V} (k : string) (d : dict V) : option V :=
  match d with
  | [] => None
  | (k', v) :: d' => if decide (k = k') then Some v else dict_get k d'
  end.

(** [d[k] = v]: overwrite in place, or append a new key at the end. *)
Fixpoint dict_set {V} (k : string) (v : V) (d : dict V) : dict V :=
  match d with
  | [] => [(k, v)]
  | (k', v') :: d' =>
      if decide (k = k') then (k, v) :: d' else (k', v') :: dict_set k v d'
  end.

(** [list(d.keys())] and [d.values()]. *)
Definition dict_keys {V} (d : dict V) : list string := d.*1.
Definition dict_values {V} (d : dict V) : list V := d.*2.

(** A list of pairs is a dict when no key occurs twice. *)
Definition is_dict {V} (d : dict V) : Prop := NoDup (dict_keys d).

(** The dict that maps every key of [ks], in this order, to [f] of the
    key. *)
Definition tabulate {V} (f : string -> V) (ks : list string) : dict V :=
  (fun k => (k, f k)) <$> ks.

(** The exceptions the program can raise; the last five come from the
    file system ([os.listdir], [open], [read]). *)
Inductive exn : Type :=
  | KeyError (key : string)
  | IndexError
  | ValueError
  | ZeroDivisionError
  | NameError (name : string)
  | FileNotFoundError
  | NotADirectoryError
  | IsADirectoryError
  | PermissionError
  | UnicodeDecodeError.

(** How a call ends: a value, an exception, or the fuel of a [while] loop
    ran out. *)
Inductive outcome (A : Type) : Type :=
  | Ok (a : A)
  | Raise (e : exn)
  | OutOfFuel.
Arguments Ok {A} a.
Arguments Raise {A} e.
Arguments OutOfFuel {A}.

(** ** Float arithmetic *)

(** The operations on [float] the program uses.  [of_int] is the implicit
    conversion of an [int] operand; [fdiv] is the quotient for a divisor
    that is not zero (the zero test and [ZeroDivisionError] are in
    [truediv] below); [fround x n] is [round(x, n)]; [lit_0_001] is the
    literal [0.001]. *)
Class PyFloat (F : Type) : Type := {
  of_int : Z -> F;
  fadd : F -> F -> F;
  fsub : F -> F -> F;
  fmul : F -> F -> F;
  fdiv : F -> F -> F;
  fabs : F -> F;
  fis_zero : F -> bool;
  flt : F -> F -> bool;
  fge : F -> F -> bool;
  fne : F -> F -> bool;
  fround : F -> Z -> F;
  lit_0_001 : F
}.

(** The [random] module: [random.choice(seq)] and
    [random.choices(population, weights)], each a function of the
    generator's state. *)
Class Random (R F : Type) : Type := {
  random_choice : list string -> R -> outcome string * R;
  random_choices : list string -> list F -> R -> outcome (list string) * R
}.

(** The lines the program prints, with the value each one formats. *)
Inductive line (F : Type) : Type :=
  | ErrorProbabilities (total : F)
      (* ERROR! Probabilities add up to {total} *)
  | SumOfSample (total : F)
      (* Sum of sample_pagerank values: {total} *)
  | StableAfter (iterations : Z)
      (* PageRank value stable after {iterations} iterations. *)
  | SumOfIterate (total : F).
      (* Sum of iterate_pagerank values: {total} *)
Arguments ErrorProbabilities {F} total.
Arguments SumOfSample {F} total.
Arguments StableAfter {F} iterations.
Arguments SumOfIterate {F} total.

(** What a call can change: the generator and the standard output. *)
Record world (R F : Type) : Type := World {
  rng : R;
  stdout : list (line F)
}.
Arguments World {R F} rng stdout.
Arguments rng {R F} w.
Arguments stdout {R F} w.

(** ** The monad of effects *)

Definition M (R F A : Type) : Type := world R F -> outcome A * world R F.

Definition ret {R F A} (a : A) : M R F A := fun w => (Ok a, w).

Definition bind {R F A B} (m : M R F A) (k : A -> M R F B) : M R F B :=
  fun w =>
    match m w with
    | (Ok a, w') => k a w'
    | (Raise e, w') => (Raise e, w')
    | (OutOfFuel, w') => (OutOfFuel, w')
    end.

Definition raise {R F A} (e : exn) : M R F A := fun w => (Raise e, w).

Definition out_of_fuel {R F A} : M R F A := fun w => (OutOfFuel, w).

Definition print {R F} (l : line F) : M R F unit :=
  fun w => (Ok tt, World (rng w) (stdout w ++ [l])).

Declare Scope py_scope.
Delimit Scope py_scope with py.
Notation "x <- m ;; k" := (bind m (fun x => k))
  (at level 100, m at next level, right associativity) : py_scope.
Notation "m ;;; k" := (bind m (fun _ => k))
  (at level 100, right associativity) : py_scope.
Local Open Scope py_scope.

(** [for x in l: body], threading the variables the body assigns. *)
Fixpoint for_each {R F A S} (l : list A) (body : A -> S -> M R F S) (s : S)
    : M R F S :=
  match l with
  | [] => ret s
  | x :: l' => s' <- body x s ;; for_each l' body s'
  end.

(** A comprehension whose element expression can raise. *)
Fixpoint map_M {R F A B} (f : A -> M R F B) (l : list A) : M R F (list B) :=
  match l with
  | [] => ret []
  | x :: l' => y <- f x ;; ys <- map_M f l' ;; ret (y :: ys)
  end.

(** A comprehension with a condition that can raise. *)
Fixpoint filter_M {R F A} (f : A -> M R F bool) (l : list A)
    : M R F (list A) :=
  match l with
  | [] => ret []
  | x :: l' =>
      b <- f x ;; ys <- filter_M f l' ;; ret (if b then x :: ys else ys)
  end.

(** [range(n)]: empty when [n <= 0]. *)
Definition range (n : Z) : list Z := Z.of_nat <$> seq 0 (Z.to_nat n).

Section Python.
Context {R F : Type} `{!PyFloat F} `{!Random R F}.

(** [d[k]] as an expression: [KeyError] when the key is missing. *)
Definition subscript {V} (d : dict V) (k : string) : M R F V :=
  match dict_get k d with
  | Some v => ret v
  | None => raise (KeyError k)
  end.

(** [x / n] with a float [x] and an int [n]. *)
Definition truediv (x : F) (n : Z) : M R F F :=
  if n =? 0 then raise ZeroDivisionError else ret (fdiv x (of_int n)).

(** [a / b] with two ints: the result is a float. *)
Definition truediv_int (a b : Z) : M R F F := truediv (of_int a) b.

(** [x / y] with two floats. *)
Definition truediv_float (x y : F) : M R F F :=
  if fis_zero y then raise ZeroDivisionError else ret (fdiv x y).

(** [sum(l)]: starts from the int [0] and adds from the left.  (From
    CPython 3.12 on the sum of floats is compensated; in exact arithmetic
    this is the same function.) *)
Definition py_sum (l : list F) : F := fold_left fadd l (of_int 0).

(** [random.choice(seq)] and [random.choices(population, weights)] on
    the generator of the world. *)
Definition py_random_choice (seq : list string) : M R F string :=
  fun w =>
    let (o, r) := random_choice seq (rng w) in (o, World r (stdout w)).

Definition py_random_choices (population : list string) (weights : list F)
    : M R F (list string) :=
  fun w =>
    let (o, r) := random_choices population weights (rng w) in
    (o, World r (stdout w)).

(** [l.pop()]: the last element; [IndexError] on an empty list. *)
Definition list_pop {A} (l : list A) : M R F A :=
  match last l with
  | Some x => ret x
  | None => raise IndexError
  end.

(** ** [transition_model] (lines 51-98) *)

Definition transition_model (corpus : dict (gset string)) (page : string)
    (damping_factor : F) : M R F (dict F) :=
  let trans_mod : dict F := [] in
  let num_files := Z.of_nat (length corpus) in
  links <- subscript corpus page ;;
  let num_links := Z.of_nat (size links) in
  probs <-
    (if negb (num_links =? 0) then
       rand_prob <- truediv (fsub (of_int 1) damping_factor) num_files ;;
       spec_prob <- truediv damping_factor num_links ;;
       ret (rand_prob, spec_prob)
     else
       rand_prob <- truediv (fsub (of_int 1) damping_factor) num_files ;;
       ret (rand_prob, of_int 0)) ;;
  let '(rand_prob, spec_prob) := probs in
  trans_mod <-
    for_each (dict_keys corpus) (fun file trans_mod =>
      links <- subscript corpus page ;;
      if Z.of_nat (size links) =? 0 then
        v <- truediv_int 1 num_files ;;
        ret (dict_set file v trans_mod)
      else
        links <- subscript corpus page ;;
        if negb (bool_decide (file ∈ links)) then
          ret (dict_set file rand_prob trans_mod)
        else
          ret (dict_set file (fadd spec_prob rand_prob) trans_mod))
      trans_mod ;;
  (if fne (fround (py_sum (dict_values trans_mod)) 5) (of_int 1) then
     print (ErrorProbabilities (py_sum (dict_values trans_mod)))
   else ret tt) ;;;
  ret trans_mod.

(** ** [sample_pagerank] (lines 101-145) *)

(** Lines 118-136: the body of the loop.  The variables it assigns are
    [sample] and [sample_PR]. *)
Definition sample_step (corpus : dict (gset string)) (damping_factor : F)
    (iteration : Z) (st : option string * dict Z)
    : M R F (option string * dict Z) :=
  let '(sample, sample_PR) := st in
  match sample with
  | None =>
      let choices := dict_keys corpus in
      sample <- py_random_choice choices ;;
      count <- subscript sample_PR sample ;;
      ret (Some sample, dict_set sample (count + 1) sample_PR)
  | Some current =>
      next_sample_prob <- transition_model corpus current damping_factor ;;
      let choices := dict_keys next_sample_prob in
      weights <- map_M (subscript next_sample_prob) choices ;;
      drawn <- py_random_choices choices weights ;;
      sample <- list_pop drawn ;;
      count <- subscript sample_PR sample ;;
      ret (Some sample, dict_set sample (count + 1) sample_PR)
  end.

(** Lines 110-138: the counters, the walk of [n] draws, and the
    division of every counter by [n]. *)
Definition sample_counts (corpus : dict (gset string)) (damping_factor : F)
    (n : Z) : M R F (dict F) :=
  sample_PR <-
    for_each (dict_keys corpus) (fun page (sample_PR : dict Z) =>
      ret (dict_set page 0 sample_PR)) [] ;;
  let sample : option string := None in
  st <- for_each (range n) (sample_step corpus damping_factor)
          (sample, sample_PR) ;;
  let sample_PR : dict Z := st.2 in
  map_M (fun '(key, value) => v <- truediv_int value n ;; ret (key, v))
    sample_PR.

(** Lines 139-145: the check of the sum.  The message of the failure
    branch formats [sum(trans_mod.values())]; [trans_mod] is a local
    variable of [transition_model] only, neither a variable of
    [sample_pagerank] nor a name of the module, so evaluating the
    message raises [NameError] before anything is printed. *)
Definition sample_pagerank (corpus : dict (gset string)) (damping_factor : F)
    (n : Z) : M R F (dict F) :=
  sample_PR <- sample_counts corpus damping_factor n ;;
  (if fne (fround (py_sum (dict_values sample_PR)) 5) (of_int 1) then
     raise (NameError "trans_mod")
   else print (SumOfSample (py_sum (dict_values sample_PR)))) ;;;
  ret sample_PR.

(** ** [iterate_pagerank] (lines 148-203) *)

(** Lines 161-163: every page starts at [1/num_pages]. *)
Definition iterate_init (corpus : dict (gset string)) : M R F (dict F) :=
  let num_pages := Z.of_nat (length corpus) in
  for_each (dict_keys corpus) (fun page (iterate_PR : dict F) =>
    v <- truediv_int 1 num_pages ;;
    ret (dict_set page v iterate_PR)) [].

(** Lines 175-196: the body of the [for] loop, for one page.
    [previous_state] is the copy taken at line 172 and [num_pages] the
    variable of line 160; the variables the body assigns are
    [iterate_PR], updated in place, and [changes]. *)
Definition iterate_page (corpus : dict (gset string)) (damping_factor : F)
    (previous_state : dict F) (page : string) (st : dict F * F)
    : M R F (dict F * F) :=
  let '(iterate_PR, changes) := st in
  let num_pages := Z.of_nat (length corpus) in
  parents <-
    filter_M (fun link =>
      links <- subscript corpus link ;;
      ret (bool_decide (page ∈ links))) (dict_keys corpus) ;;
  first <- truediv (fsub (of_int 1) damping_factor) num_pages ;;
  second <-
    (if negb (Z.of_nat (length parents) =? 0) then
       for_each parents (fun parent (second : list F) =>
         links <- subscript corpus parent ;;
         let num_links := Z.of_nat (size links) in
         prev <- subscript previous_state parent ;;
         val <- truediv prev num_links ;;
         ret (second ++ [val])) []
     else ret []) ;;
  let second := py_sum second in
  let iterate_PR :=
    dict_set page (fadd first (fmul damping_factor second)) iterate_PR in
  new <- subscript iterate_PR page ;;
  old <- subscript previous_state page ;;
  let new_change := fabs (fsub new old) in
  let changes := if flt changes new_change then new_change else changes in
  ret (iterate_PR, changes).

(** Lines 170-196: one pass of the [while] body over all pages. *)
Definition iterate_sweep (corpus : dict (gset string)) (damping_factor : F)
    (iterate_PR : dict F) : M R F (dict F * F) :=
  let changes := of_int 0 in
  let previous_state := iterate_PR in
  for_each (dict_keys iterate_PR)
    (iterate_page corpus damping_factor previous_state)
    (iterate_PR, changes).

(** Lines 167-197: [while changes >= 0.001].  The state is
    [(iterate_PR, changes, iterations)]. *)
Fixpoint iterate_loop (fuel : nat) (corpus : dict (gset string))
    (damping_factor : F) (st : dict F * F * Z) : M R F (dict F * F * Z) :=
  let '(iterate_PR, changes, iterations) := st in
  if fge changes lit_0_001 then
    match fuel with
    | O => out_of_fuel
    | S fuel' =>
        r <- iterate_sweep corpus damping_factor iterate_PR ;;
        iterate_loop fuel' corpus damping_factor (r.1, r.2, iterations + 1)
    end
  else ret st.

Definition iterate_pagerank (fuel : nat) (corpus : dict (gset string))
    (damping_factor : F) : M R F (dict F) :=
  iterate_PR <- iterate_init corpus ;;
  let changes := of_int 1 in
  let iterations := 1 in
  st <- iterate_loop fuel corpus damping_factor
          (iterate_PR, changes, iterations) ;;
  let '(iterate_PR, changes, iterations) := st in
  let dictsum := py_sum (dict_values iterate_PR) in
  iterate_PR <-
    map_M (fun '(key, value) =>
      v <- truediv_float value dictsum ;; ret (key, v)) iterate_PR ;;
  print (StableAfter iterations) ;;;
  print (SumOfIterate (py_sum (dict_values iterate_PR))) ;;;
  ret iterate_PR.

(** ** Closed forms used to state results *)

(** The entry of [file] in the dict that [transition_model] builds for a
    page whose links are [links]. *)
Definition transition_value (corpus : dict (gset string))
    (links : gset string) (damping_factor : F) (file : string) : F :=
  let num_files := Z.of_nat (length corpus) in
  let num_links := Z.of_nat (size links) in
  if num_links =? 0 then fdiv (of_int 1) (of_int num_files)
  else if bool_decide (file ∈ links) then
    fadd (fdiv damping_factor (of_int num_links))
         (fdiv (fsub (of_int 1) damping_factor) (of_int num_files))
  else fdiv (fsub (of_int 1) damping_factor) (of_int num_files).

Definition transition_dist (corpus : dict (gset string))
    (links : gset string) (damping_factor : F) : dict F :=
  tabulate (transition_value corpus links damping_factor) (dict_keys corpus).

(** ** The sampling estimator in the words of the specification *)

(** A draw from the categorical distribution [dist]: the pages are the
    population and their entries the weights. *)
Definition draw_weighted (dist : dict F) : M R F string :=
  drawn <- py_random_choices (dict_keys dist) (dict_values dist) ;;
  list_pop drawn.

(** [k] further samples, each drawn from the distribution that
    [transition_model] computes on the sample before it. *)
Fixpoint spec_walk (k : nat) (corpus : dict (gset string))
    (damping_factor : F) (current : string) : M R F (list string) :=
  match k with
  | O => ret []
  | S k' =>
      dist <- transition_model corpus current damping_factor ;;
      next <- draw_weighted dist ;;
      rest <- spec_walk k' corpus damping_factor next ;;
      ret (next :: rest)
  end.

(** The [n] samples: the first one uniform among all pages. *)
Definition spec_samples (corpus : dict (gset string)) (damping_factor : F)
    (n : nat) : M R F (list string) :=
  match n with
  | O => ret []
  | S k =>
      first <- py_random_choice (dict_keys corpus) ;;
      rest <- spec_walk k corpus damping_factor first ;;
      ret (first :: rest)
  end.

(** How often page [p] was drawn. *)
Definition count_visits (p : string) (samples : list string) : Z :=
  Z.of_nat (length (filter (fun s => s = p) samples)).

(** Every page's counter divided by [n]. *)
Definition spec_sample_rank (corpus : dict (gset string)) (n : Z)
    (samples : list string) : dict F :=
  tabulate (fun p => fdiv (of_int (count_visits p samples)) (of_int n))
    (dict_keys corpus).

(** ** The iterative estimator in the words of the specification *)

(** The rank of a page in a dict of ranks. *)
Definition rank_of (ranks : dict F) (p : string) : F :=
  default (of_int 0) (dict_get p ranks).

(** [|graph[q]|]. *)
Definition out_degree (corpus : dict (gset string)) (q : string) : Z :=
  match dict_get q corpus with
  | Some links => Z.of_nat (size links)
  | None => 0
  end.

(** [p ∈ graph[q]]. *)
Definition links_to (corpus : dict (gset string)) (p q : string) : bool :=
  match dict_get q corpus with
  | Some links => bool_decide (p ∈ links)
  | None => false
  end.

(** [parents(p)]: the pages [q] of the graph with [p ∈ graph[q]]. *)
Definition spec_parents (corpus : dict (gset string)) (p : string)
    : list string :=
  filter (fun q => links_to corpus p q = true) (dict_keys corpus).

(** [new_rank(p)], from the ranks [previous]. *)
Definition spec_new_rank (corpus : dict (gset string)) (damping_factor : F)
    (previous : dict F) (p : string) : F :=
  fadd (fdiv (fsub (of_int 1) damping_factor)
          (of_int (Z.of_nat (length corpus))))
       (fmul damping_factor
          (py_sum ((fun q => fdiv (rank_of previous q)
                               (of_int (out_degree corpus q)))
                   <$> spec_parents corpus p))).

(** One iteration: every page gets its new rank, computed from
    [previous]. *)
Definition spec_sweep (corpus : dict (gset string)) (damping_factor : F)
    (previous : dict F) : dict F :=
  tabulate (spec_new_rank corpus damping_factor previous)
    (dict_keys previous).

(** The larger of the maximum so far and a new change. *)
Definition running_max (changes new_change : F) : F :=
  if flt changes new_change then new_change else changes.

(** [max_change]: the maximum, over the pages, of
    [|new_rank(p) - previous[p]|], starting from [0]. *)
Definition spec_max_change (corpus : dict (gset string)) (damping_factor : F)
    (previous : dict F) : F :=
  fold_left running_max
    ((fun p => fabs (fsub (spec_new_rank corpus damping_factor previous p)
                       (rank_of previous p))) <$> dict_keys previous)
    (of_int 0).

(** Every page starts at [1 / num_pages]. *)
Definition spec_init (corpus : dict (gset string)) : dict F :=
  tabulate (fun _ => fdiv (of_int 1) (of_int (Z.of_nat (length corpus))))
    (dict_keys corpus).

(** The ranks after [k] iterations, and the maximum change measured by
    iteration [k + 1]. *)
Fixpoint spec_ranks (corpus : dict (gset string)) (damping_factor : F)
    (k : nat) : dict F :=
  match k with
  | O => spec_init corpus
  | S k' => spec_sweep corpus damping_factor
              (spec_ranks corpus damping_factor k')
  end.

Definition spec_change (corpus : dict (gset string)) (damping_factor : F)
    (k : nat) : F :=
  spec_max_change corpus damping_factor (spec_ranks corpus damping_factor k).

(** The world after the check of lines 94-95 on the dict [d]. *)
Definition after_sum_check (d : dict F) (w : world R F) : world R F :=
  if fne (fround (py_sum (dict_values d)) 5) (of_int 1) then
    World (rng w) (stdout w ++ [ErrorProbabilities (py_sum (dict_values d))])
  else w.

End Python.

(** ** Exact rational arithmetic *)

(** Nearest integer, ties to even: the rounding rule of [round]. *)
Definition round_half_even (q : Q) : Z :=
  let f := Qfloor q in
  match (q - inject_Z f ?= 1 # 2)%Q with
  | Lt => f
  | Gt => f + 1
  | Eq => if Z.even f then f else f + 1
  end.

(** [round(q, n)] on a rational. *)
Definition Qround_digits (q : Q) (n : Z) : Q :=
  Qred (inject_Z (round_half_even (q * inject_Z 10 ^ n)) / inject_Z 10 ^ n).

(** The interface without rounding: every value is a rational in lowest
    terms and every operation is exact. *)
#[export] Instance ExactQ : PyFloat Q := {
  of_int := inject_Z;
  fadd x y := Qred (x + y);
  fsub x y := Qred (x - y);
  fmul x y := Qred (x * y);
  fdiv x y := Qred (x / y);
  fabs x := Qred (Qabs x);
  fis_zero x := Qeq_bool x 0;
  flt x y := negb (Qle_bool y x);
  fge x y := Qle_bool y x;
  fne x y := negb (Qeq_bool x y);
  fround := Qround_digits;
  lit_0_001 := 1 # 1000
}.

(** ** binary64 arithmetic *)

(** A Python [float] is a binary64 number of IEEE 754; its operations
    round to the nearest number, ties to even.  Below [float] is the
    primitive type of these numbers. *)
Abbreviation float := PrimFloat.float.

(** [float(z)] for an [int]: the nearest float. *)
Definition float_of_Z (z : Z) : float :=
  FloatOps.SF2Prim
    (SpecFloat.binary_normalize FloatOps.prec FloatOps.emax z 0 false).

(** The sign bit of a float. *)
Definition float_sign (x : float) : bool :=
  match FloatOps.Prim2SF x with
  | SpecFloat.S754_zero s
  | SpecFloat.S754_infinity s
  | SpecFloat.S754_finite s _ _ => s
  | SpecFloat.S754_nan => false
  end.

(** The number a finite float stands for. *)
Definition float_value (x : float) : option Q :=
  match FloatOps.Prim2SF x with
  | SpecFloat.S754_zero _ => Some 0%Q
  | SpecFloat.S754_finite s m e =>
      Some (Qred ((if s then -1 else 1) * inject_Z (Z.pos m) * 2 ^ e))%Q
  | _ => None
  end.

(** The float nearest to a rational; a zero takes the sign
    [negative]. *)
Definition nearest_float (negative : bool) (q : Q) : float :=
  let quotient (s : bool) (n : positive) :=
    FloatOps.SF2Prim
      (SpecFloat.SFdiv FloatOps.prec FloatOps.emax
         (SpecFloat.S754_finite s n 0)
         (SpecFloat.S754_finite false (Qden q) 0)) in
  match Qnum q with
  | Z0 => FloatOps.SF2Prim (SpecFloat.S754_zero negative)
  | Zpos n => quotient false n
  | Zneg n => quotient true n
  end.

(** [round(x, ndigits)]: the float nearest to the decimal number that is
    nearest to [x], ties to even, as [float.__round__] computes it from
    the shortest decimal string; an infinity or a NaN is returned as it
    is. *)
Definition float_round (x : float) (ndigits : Z) : float :=
  match float_value x with
  | Some q => nearest_float (float_sign x) (Qround_digits q ndigits)
  | None => x
  end.

(** The interface on binary64.  A literal is the float nearest to the
    decimal number written. *)
#[export] Instance Binary64 : PyFloat float | 10 := {
  of_int := float_of_Z;
  fadd := PrimFloat.add;
  fsub := PrimFloat.sub;
  fmul := PrimFloat.mul;
  fdiv := PrimFloat.div;
  fabs := PrimFloat.abs;
  fis_zero x := PrimFloat.eqb x (float_of_Z 0);
  flt := PrimFloat.ltb;
  fge x y := PrimFloat.leb y x;
  fne x y := negb (PrimFloat.eqb x y);
  fround := float_round;
  lit_0_001 := nearest_float false (1 # 1000)
}.

(** The sum of a list of rationals. *)
Definition Qsum (l : list Q) : Q := foldr Qplus 0%Q l.

(** The L1 distance of two dicts of ranks over the pages [ks]. *)
Definition l1_dist (ks : list string) (x y : dict Q) : Q :=
  Qsum ((fun p => Qabs (rank_of x p - rank_of y p)) <$> ks).

(** [c * d^k]. *)
Fixpoint geom (d c : Q) (k : nat) : Q :=
  match k with
  | O => c
  | S k' => (d * geom d c k')%Q
  end.

(** ** A deterministic source of randomness for tests *)

(** The generator is a list of variates in [0, 1), consumed from the
    front; [0] when the list is exhausted. *)
Definition next_variate (r : list Q) : Q * list Q :=
  match r with
  | [] => (0%Q, [])
  | u :: r' => (u, r')
  end.

(** [itertools.accumulate(weights)]. *)
Fixpoint accumulate_from (acc : Q) (ws : list Q) : list Q :=
  match ws with
  | [] => []
  | w :: ws' => let acc' := Qred (acc + w) in acc' :: accumulate_from acc' ws'
  end.

Definition accumulate (ws : list Q) : list Q :=
  match ws with
  | [] => []
  | w :: ws' => w :: accumulate_from w ws'
  end.

(** [bisect(cum, x, 0, hi)] on an ascending list: how many of the first
    [hi] elements are at most [x]. *)
Fixpoint bisect (cum : list Q) (x : Q) (hi : nat) : nat :=
  match hi, cum with
  | S hi', c :: cum' => if Qle_bool c x then S (bisect cum' x hi') else O
  | _, _ => O
  end.

(** Element [i] of a non-empty sequence, the last one when [i] is too
    large. *)
Definition pick (seq : list string) (i : nat) : outcome string :=
  match seq !! Nat.min i (length seq - 1) with
  | Some s => Ok s
  | None => Raise IndexError
  end.

(** [random.choice] takes position [floor(u * len(seq))];
    [random.choices] inverts the cumulative weights at [u * total]. *)
#[export] Instance TestRandom : Random (list Q) Q := {
  random_choice seq r :=
    match seq with
    | [] => (Raise IndexError, r)
    | _ =>
        let (u, r') := next_variate r in
        (pick seq (Z.to_nat (Qfloor (u * inject_Z (Z.of_nat (length seq))))),
         r')
    end;
  random_choices population weights r :=
    let cum_weights := accumulate weights in
    if negb (length cum_weights =? length population)%nat then
      (Raise ValueError, r)
    else
      match last cum_weights with
      | None => (Raise IndexError, r)
      | Some total =>
          if Qle_bool total 0 then (Raise ValueError, r)
          else
            let (u, r') := next_variate r in
            let i := bisect cum_weights (u * total) (length population - 1) in
            (match pick population i with
             | Ok s => Ok [s]
             | Raise e => Raise e
             | OutOfFuel => OutOfFuel
             end, r')
      end
}.

(** What the estimators need from [random]: [choice] fails on an empty
    sequence and otherwise returns one of its elements; [choices] with
    as many weights as elements, all positive, returns a list of one
    element of the population. *)
Class RandomLaws (R : Type) `{!Random R Q} : Prop := {
  random_choice_empty (r : R) :
    (random_choice [] r).1 = Raise IndexError;
  random_choice_elem (seq : list string) (r : R) :
    seq ≠ [] -> exists s, (random_choice seq r).1 = Ok s /\ s ∈ seq;
  random_choices_elem (population : list string) (weights : list Q) (r : R) :
    population ≠ [] ->
    length weights = length population ->
    Forall (fun x => (0 < x)%Q) weights ->
    exists s, (random_choices population weights r).1 = Ok [s] /\
              s ∈ population
}.

(** ** Test data *)

Definition two_pages : dict (gset string) :=
  [("A", {["B"]}); ("B", {["A"]})].

Definition dangling_pair : dict (gset string) :=
  [("A", ∅); ("B", {["A"]})].

Definition hub : dict (gset string) :=
  [("A", {["B"; "C"]}); ("B", {["A"]}); ("C", {["A"]})].

(** A mapping with a link to a page that is not a key. *)
Definition stray_link : dict (gset string) := [("A", {["B"]})].

(** Three pages in a ring and a source [S] that links into it, and the
    damping factor written [0.9999999999999999]: the largest float
    below [1]. *)
Definition ring : dict (gset string) :=
  [("A", {["B"]}); ("B", {["C"]}); ("C", {["A"]}); ("S", {["A"]})].

Definition nearly_one : float :=
  nearest_float false (9999999999999999 # 10000000000000000).

Definition w0 : world (list Q) Q := World [1 # 3; 3 # 4; 1 # 10; 9 # 10] [].

Definition run {A} (m : M (list Q) Q A) : outcome A * world (list Q) Q :=
  m w0.

(** ** [crawl] (lines 24-48) *)

(** What [crawl] reads from outside.  [os.listdir(directory)] gives the
    names in a directory, or raises (the directory is missing, is a file,
    may not be read); [open(path)] followed by [f.read()] gives the text
    of a file, or raises (the file is missing, is a directory, may not be
    read, cannot be decoded); [re.findall] gives the matches of the
    pattern of line 38 in a text. *)
Class Files : Type := {
  listdir : string -> exn + list string;
  read_file : string -> exn + string;
  findall_href : string -> list string
}.

(** [s.endswith(suffix)]. *)
Definition endswith (s suffix : string) : bool :=
  let n := String.length s in
  let m := String.length suffix in
  if (m <=? n)%nat then String.eqb (String.substring (n - m) m s) suffix else false.

(** [os.path.join(a, b)] of [posixpath]. *)
Definition path_join (a b : string) : string :=
  if String.prefix "/" b then b
  else if String.eqb a "" || endswith a "/" then a +:+ b
  else a +:+ "/" +:+ b.

Section Crawl.
Context {R F : Type} `{!Files}.

(** A call into the file system: its value, or its exception. *)
Definition os_call {A} (r : exn + A) : M R F A :=
  match r with
  | inr a => ret a
  | inl e => raise e
  end.

Definition crawl (directory : string) : M R F (dict (gset string)) :=
  let pages : dict (gset string) := [] in
  names <- os_call (listdir directory) ;;
  pages <-
    for_each names (fun filename (pages : dict (gset string)) =>
      if negb (endswith filename ".html") then ret pages
      else
        contents <- os_call (read_file (path_join directory filename)) ;;
        let links := findall_href contents in
        ret (dict_set filename
               (list_to_set links ∖ {[filename]} : gset string) pages))
      pages ;;
  pages <-
    for_each (dict_keys pages) (fun filename (pages : dict (gset string)) =>
      links <- subscript pages filename ;;
      ret (dict_set filename
             (filter (fun link => link ∈ dict_keys pages) links) pages))
      pages ;;
  ret pages.

(** The names [crawl] keeps among the names of a directory. *)
Definition html_files (names : list string) : list string :=
  filter (fun filename => endswith filename ".html" = true) names.

(** The text of a file that can be read. *)
Definition contents_of (directory filename : string) : string :=
  match read_file (path_join directory filename) with
  | inr contents => contents
  | inl _ => ""
  end.

(** The links [crawl] finds in a file before the second loop. *)
Definition found_links (directory filename : string) : gset string :=
  list_to_set (findall_href (contents_of directory filename)) ∖ {[filename]}.

(** The exception of the first file named [*.html] that cannot be
    read. *)
Fixpoint first_unreadable (directory : string) (names : list string)
    : option exn :=
  match names with
  | [] => None
  | filename :: names' =>
      if endswith filename ".html" then
        match read_file (path_join directory filename) with
        | inl e => Some e
        | inr _ => first_unreadable directory names'
        end
      else first_unreadable directory names'
  end.

End Crawl.

(** A file system for tests, with four directories: [corpus] holds three
    pages and a text file, [empty] holds no page, [broken] holds a page
    and a directory named like a page, and there is no directory
    [missing].  The text of a page is the list of its link targets,
    separated by spaces, and the pattern matches every one. *)
#[export] Instance TestFiles : Files := {
  listdir directory :=
    if String.eqb directory "corpus" then
      inr ["1.html"; "2.html"; "notes.txt"; "3.html"]
    else if String.eqb directory "empty" then inr ["notes.txt"]
    else if String.eqb directory "broken" then
      inr ["1.html"; "old.html"; "2.html"]
    else if String.eqb directory "corpus/notes.txt" then
      inl NotADirectoryError
    else inl FileNotFoundError;
  read_file path :=
    if String.eqb path "corpus/1.html" then inr "2.html 1.html 9.html"
    else if String.eqb path "corpus/2.html" then inr "1.html 3.html 1.html"
    else if String.eqb path "corpus/3.html" then inr ""
    else if String.eqb path "corpus/notes.txt" then inr "1.html"
    else if String.eqb path "empty/notes.txt" then inr ""
    else if String.eqb path "broken/1.html" then inr "2.html"
    else if String.eqb path "broken/old.html" then inl IsADirectoryError
    else if String.eqb path "broken/2.html" then inl UnicodeDecodeError
    else inl FileNotFoundError;
  findall_href contents := String.words contents
}.

(** The graph of the directory for tests. *)
Definition corpus_pages : dict (gset string) :=
  [("1.html", {["2.html"]}); ("2.html", {["1.html"; "3.html"]});
   ("3.html", ∅)].

(** ** [main] (lines 6-21) *)

(** The constants of lines 6 and 7. *)
Definition DAMPING : Q := 85 # 100.
Definition SAMPLES : Z := 10000.

(** The lines on the standard output of the program: those its callees
    print, and the lines of the report, each with the values it
    formats. *)
Inductive report_line : Type :=
  | Printed (l : line Q)
  | SamplingHeader (n : Z)
      (* PageRank Results from Sampling (n = {n}) *)
  | IterationHeader
      (* PageRank Results from Iteration *)
  | RankLine (page : string) (rank : Q).
      (*   {page}: {rank:.4f} *)

(** How the program ends: [main] returns, [sys.exit] is called with a
    message, an exception is not caught, or the fuel ran out. *)
Inductive ending : Type :=
  | Returned
  | SystemExit (message : string)
  | Uncaught (e : exn)
  | FuelOut.

(** [sorted(ranks)]: the keys in ascending order. *)
Definition sorted (keys : list string) : list string :=
  merge_sort String.le keys.

Section Main.
Context {R : Type} `{!Random R Q} `{!Files}.

(** The rest of a program, from the output so far and the generator. *)
Definition program : Type :=
  list report_line -> R -> ending * list report_line * R.

Definition finish (e : ending) : program := fun out r => (e, out, r).

Definition say (l : report_line) (k : program) : program :=
  fun out r => k (out ++ [l]) r.

(** A call of one of the functions above: its lines go to the output,
    its exception ends the program. *)
Definition call {A} (m : M R Q A) (k : A -> program) : program :=
  fun out r =>
    match m (World r []) with
    | (Ok a, w) => k a (out ++ (Printed <$> stdout w)) (rng w)
    | (Raise e, w) => (Uncaught e, out ++ (Printed <$> stdout w), rng w)
    | (OutOfFuel, w) => (FuelOut, out ++ (Printed <$> stdout w), rng w)
    end.

(** Lines 16-17 and 20-21: one line for every page. *)
Fixpoint say_ranks (ranks : dict Q) (pages : list string) (k : program)
    : program :=
  match pages with
  | [] => k
  | page :: pages' =>
      match dict_get page ranks with
      | Some rank => say (RankLine page rank) (say_ranks ranks pages' k)
      | None => finish (Uncaught (KeyError page))
      end
  end.

Definition main (fuel : nat) (argv : list string) : program :=
  if negb (Z.of_nat (length argv) =? 2) then
    finish (SystemExit "Usage: python pagerank.py corpus")
  else
    match argv !! 1%nat with
    | None => finish (Uncaught IndexError)
    | Some directory =>
        call (crawl directory) (fun corpus =>
        call (sample_pagerank corpus DAMPING SAMPLES) (fun ranks =>
        say (SamplingHeader SAMPLES) (
        say_ranks ranks (sorted (dict_keys ranks)) (
        call (iterate_pagerank fuel corpus DAMPING) (fun ranks =>
        say IterationHeader (
        say_ranks ranks (sorted (dict_keys ranks)) (
        finish Returned)))))))
    end.

End Main.


(** * Facts about dicts *)

Section DictFacts.
Context {V : Type}.
Implicit Types (d : dict V) (k : string) (v : V) (f : string -> V).

Lemma dict_keys_app d1 d2 :
  dict_keys (d1 ++ d2) = dict_keys d1 ++ dict_keys d2.
Proof. unfold dict_keys. by rewrite fmap_app. Qed.

Lemma dict_set_fresh k v d :
  k ∉ dict_keys d -> dict_set k v d = d ++ [(k, v)].
Proof.
  induction d as [|[k' v'] d IH]; simpl; [done|].
  rewrite not_elem_of_cons. intros [Hne Hnin].
  destruct (decide (k = k')); [done|]. by rewrite IH.
Qed.

Lemma dict_set_at done k v0 v todo :
  k ∉ dict_keys done ->
  dict_set k v (done ++ (k, v0) :: todo) = done ++ (k, v) :: todo.
Proof.
  induction done as [|[k' v'] done IH]; simpl.
  - intros _. by destruct (decide (k = k)).
  - rewrite not_elem_of_cons. intros [Hne Hnin].
    destruct (decide (k = k')); [done|]. by rewrite IH.
Qed.

Lemma dict_get_Some_keys k v d : dict_get k d = Some v -> k ∈ dict_keys d.
Proof.
  induction d as [|[k' v'] d IH]; simpl; [done|].
  destruct (decide (k = k')) as [->|]; intros Hg.
  - apply elem_of_cons. by left.
  - apply elem_of_cons. right. by apply IH.
Qed.

Lemma dict_get_None_keys k d : dict_get k d = None <-> k ∉ dict_keys d.
Proof.
  induction d as [|[k' v'] d IH]; simpl.
  - split; [intros _; apply not_elem_of_nil | done].
  - rewrite not_elem_of_cons. destruct (decide (k = k')) as [->|]; [|tauto].
    split; [done | by intros [? _]].
Qed.

Lemma dict_get_keys k d : k ∈ dict_keys d -> exists v, dict_get k d = Some v.
Proof.
  intros Hk. destruct (dict_get k d) as [v|] eqn:Hg; [by exists v|].
  by apply dict_get_None_keys in Hg.
Qed.



Lemma dict_keys_tabulate f ks : dict_keys (tabulate f ks) = ks.
Proof.
  unfold dict_keys, tabulate.
  induction ks as [|k ks IH]; simpl; [done | by f_equal].
Qed.

Lemma dict_values_tabulate f ks : dict_values (tabulate f ks) = f <$> ks.
Proof.
  unfold dict_values, tabulate.
  induction ks as [|k ks IH]; simpl; [done | by f_equal].
Qed.

Lemma dict_get_tabulate f ks k :
  k ∈ ks -> dict_get k (tabulate f ks) = Some (f k).
Proof.
  induction ks as [|k' ks IH]; simpl.
  - intros H. by apply elem_of_nil in H.
  - rewrite elem_of_cons. intros Hk.
    destruct (decide (k = k')) as [->|]; [done|].
    destruct Hk; [done | by apply IH].
Qed.


Lemma dict_length_keys d : length (dict_keys d) = length d.
Proof. unfold dict_keys. by rewrite length_fmap. Qed.

Lemma dict_get_set_eq k v d : dict_get k (dict_set k v d) = Some v.
Proof.
  induction d as [|[k' v'] d IH]; simpl.
  - by rewrite decide_True.
  - destruct (decide (k = k')) as [->|Hne]; simpl.
    + by rewrite decide_True.
    + by rewrite decide_False.
Qed.

Lemma tabulate_app f ks1 ks2 :
  tabulate f (ks1 ++ ks2) = tabulate f ks1 ++ tabulate f ks2.
Proof. unfold tabulate. by rewrite fmap_app. Qed.

Lemma tabulate_ext f g ks :
  (forall k, k ∈ ks -> f k = g k) -> tabulate f ks = tabulate g ks.
Proof.
  induction ks as [|k ks IH]; intros H; [done|].
  unfold tabulate in *. simpl. rewrite (H k) by (apply elem_of_cons; by left).
  f_equal. apply IH. intros k' Hk'. apply H, elem_of_cons. by right.
Qed.

(** A dict is the table of its own lookups. *)
Lemma dict_as_tabulate (x : V) d :
  is_dict d ->
  d = tabulate (fun k => default x (dict_get k d)) (dict_keys d).
Proof.
  unfold is_dict. induction d as [|[k v] d IH]; intros Hnd; [done|].
  apply NoDup_cons in Hnd as [Hk Hnd].
  change (dict_keys ((k, v) :: d)) with (k :: dict_keys d).
  change (tabulate ?g (k :: ?ks)) with ((k, g k) :: tabulate g ks).
  cbn [dict_get]. rewrite decide_True by done. f_equal.
  rewrite (IH Hnd) at 1. apply tabulate_ext. intros k' Hk'.
  rewrite decide_False; [done|]. by intros ->.
Qed.

(** An assignment to a key of a tabulated dict changes the entry of this
    key and nothing else. *)
Lemma dict_set_tabulate f ks k v :
  NoDup ks ->
  k ∈ ks ->
  dict_set k v (tabulate f ks) =
    tabulate (fun k' => if decide (k' = k) then v else f k') ks.
Proof.
  induction 1 as [|k0 ks Hk0 Hnd IH]; intros Hk.
  - by apply elem_of_nil in Hk.
  - change (tabulate f (k0 :: ks)) with ((k0, f k0) :: tabulate f ks).
    cbn [dict_set]. destruct (decide (k = k0)) as [->|Hne].
    + change (tabulate ?g (k0 :: ks)) with ((k0, g k0) :: tabulate g ks).
      cbn beta. rewrite decide_True by done. f_equal.
      apply tabulate_ext. intros k' Hk'.
      rewrite decide_False; [done|]. by intros ->.
    + change (tabulate ?g (k0 :: ks)) with ((k0, g k0) :: tabulate g ks).
      cbn beta. rewrite decide_False by done. f_equal.
      apply IH. apply elem_of_cons in Hk as [?|?]; [done | done].
Qed.
End DictFacts.

(** * The program on any arithmetic *)

Section Generic.
Context {R F : Type} `{!PyFloat F} `{!Random R F}.
Implicit Types (corpus : dict (gset string)) (w : world R F).

Lemma for_each_tabulate {V} (body : string -> dict V -> M R F (dict V))
    (f : string -> V) (ks : list string) (acc : dict V) w :
  NoDup ks ->
  (forall k, k ∈ ks -> k ∉ dict_keys acc) ->
  (forall k acc' w', k ∈ ks -> body k acc' w' = (Ok (dict_set k (f k) acc'), w')) ->
  for_each ks body acc w = (Ok (acc ++ tabulate f ks), w).
Proof.
  intros Hnd. revert acc. induction Hnd as [|k ks Hk Hnd IH]; intros acc Hfresh Hbody.
  - simpl. unfold ret, tabulate. simpl. by rewrite app_nil_r.
  - simpl. unfold bind. rewrite Hbody by (apply elem_of_cons; by left).
    rewrite dict_set_fresh by (apply Hfresh, elem_of_cons; by left).
    rewrite IH.
    + unfold tabulate. simpl. by rewrite <- app_assoc.
    + intros k' Hk'. rewrite dict_keys_app. simpl.
      rewrite elem_of_app, list_elem_of_singleton.
      intros [Hin | ->]; [|done].
      eapply Hfresh; [|exact Hin]. apply elem_of_cons. by right.
    + intros k' acc' w' Hk'. apply Hbody, elem_of_cons. by right.
Qed.

Lemma subscript_Some {V} (d : dict V) k v w :
  dict_get k d = Some v -> subscript d k w = (Ok v, w).
Proof. unfold subscript. by intros ->. Qed.

Lemma subscript_None {V} (d : dict V) k w :
  dict_get k d = None -> subscript (V:=V) d k w = (Raise (KeyError k), w).
Proof. unfold subscript. by intros ->. Qed.

Lemma truediv_nonzero (x : F) (n : Z) w :
  n <> 0 -> truediv x n w = (Ok (fdiv x (of_int n)), w).
Proof. unfold truediv. intros Hn. by rewrite (proj2 (Z.eqb_neq n 0) Hn). Qed.

Lemma map_M_pure {A B} (f : A -> M R F B) (g : A -> B) (l : list A) w :
  (forall x w', x ∈ l -> f x w' = (Ok (g x), w')) ->
  map_M f l w = (Ok (g <$> l), w).
Proof.
  induction l as [|x l IH]; intros H; [done|].
  simpl. unfold bind. rewrite H by (apply elem_of_cons; by left).
  rewrite IH; [done|]. intros y w' Hy. apply H, elem_of_cons. by right.
Qed.

Lemma map_M_subscript_tabulate {V} (f : string -> V) (ks : list string) w :
  map_M (subscript (tabulate f ks)) ks w = (Ok (f <$> ks), w).
Proof.
  apply map_M_pure. intros k w' Hk.
  apply subscript_Some. by apply dict_get_tabulate.
Qed.

Lemma map_M_truediv_tabulate (c : string -> Z) (n : Z) (ks : list string) w :
  n <> 0 ->
  map_M (fun '(key, value) => v <- truediv_int value n ;; ret (key, v))
    (tabulate c ks) w =
  (Ok (tabulate (fun p => fdiv (of_int (c p)) (of_int n)) ks), w).
Proof.
  intros Hn. unfold tabulate.
  rewrite (map_M_pure _ (fun kv => (kv.1, fdiv (of_int kv.2) (of_int n)))).
  - by rewrite <- list_fmap_compose.
  - intros [k v] w' _. unfold bind, truediv_int.
    by rewrite truediv_nonzero.
Qed.

Lemma corpus_length_pos corpus page links :
  dict_get page corpus = Some links -> Z.of_nat (length corpus) <> 0.
Proof. destruct corpus; [done | simpl; lia]. Qed.

(** [transition_model] on a page of the corpus: the dict it returns and
    the line it may print. *)
Lemma transition_model_run corpus page links damping_factor w :
  is_dict corpus ->
  dict_get page corpus = Some links ->
  transition_model corpus page damping_factor w =
    (Ok (transition_dist corpus links damping_factor),
     after_sum_check (transition_dist corpus links damping_factor) w).
Proof.
  intros Hd Hget.
  pose proof (corpus_length_pos _ _ _ Hget) as Hn.
  unfold transition_model. unfold bind at 1.
  rewrite (subscript_Some _ _ _ _ Hget).
  destruct (Z.of_nat (size links) =? 0) eqn:Hz; simpl.
  - unfold bind at 1. unfold bind at 1. rewrite truediv_nonzero by done. simpl.
    unfold bind at 1.
    rewrite (for_each_tabulate _
      (transition_value corpus links damping_factor) _ [] w Hd).
    + simpl. fold (transition_dist corpus links damping_factor).
      unfold bind, after_sum_check.
      by destruct (fne _ _).
    + intros k _. apply not_elem_of_nil.
    + intros k acc' w' _. unfold bind.
      rewrite (subscript_Some _ _ _ _ Hget). rewrite Hz.
      unfold truediv_int. rewrite truediv_nonzero by done.
      unfold transition_value. by rewrite Hz.
  - unfold bind at 1. unfold bind at 1. unfold bind at 1.
    rewrite truediv_nonzero by done.
    rewrite truediv_nonzero by (by apply Z.eqb_neq). simpl.
    unfold bind at 1.
    rewrite (for_each_tabulate _
      (transition_value corpus links damping_factor) _ [] w Hd).
    + simpl. fold (transition_dist corpus links damping_factor).
      unfold bind, after_sum_check.
      by destruct (fne _ _).
    + intros k _. apply not_elem_of_nil.
    + intros k acc' w' _. unfold bind.
      rewrite (subscript_Some _ _ _ _ Hget). rewrite Hz.
      rewrite (subscript_Some _ _ _ _ Hget).
      unfold transition_value. rewrite Hz.
      by destruct (bool_decide (k ∈ links)).
Qed.

(** C1.  For a page of the graph whose link set is not empty,
    [transition_model] returns a dict over exactly the pages of the
    graph; the entry of a page [p] is [(1 - damping) / num_pages], and for
    a [p] in the link set of the current page it is that value added to
    [damping / num_links] (the program writes the sum as
    [spec_prob + rand_prob]).  This holds for every arithmetic, so for
    every damping factor. *)
Theorem transition_model_linked corpus page links damping_factor w :
  is_dict corpus ->
  dict_get page corpus = Some links ->
  size links <> 0%nat ->
  let num_pages := Z.of_nat (length corpus) in
  let num_links := Z.of_nat (size links) in
  exists dist w',
    transition_model corpus page damping_factor w = (Ok dist, w') /\
    dict_keys dist = dict_keys corpus /\
    forall p, p ∈ dict_keys corpus ->
      dict_get p dist =
        Some (if bool_decide (p ∈ links) then
                fadd (fdiv damping_factor (of_int num_links))
                     (fdiv (fsub (of_int 1) damping_factor) (of_int num_pages))
              else fdiv (fsub (of_int 1) damping_factor) (of_int num_pages)).
Proof.
  intros Hd Hget Hsize num_pages num_links.
  eexists _, _. split; [by apply transition_model_run|].
  unfold transition_dist. split; [apply dict_keys_tabulate|].
  intros p Hp. rewrite dict_get_tabulate by done.
  unfold transition_value. fold num_links num_pages.
  assert ((num_links =? 0) = false) as -> by (apply Z.eqb_neq; lia).
  done.
Qed.

(** C2.  For a page of the graph whose link set is empty,
    [transition_model] returns a dict over exactly the pages of the
    graph in which every entry is [1 / num_pages], whatever the damping
    factor. *)
Theorem transition_model_dangling corpus page damping_factor w :
  is_dict corpus ->
  dict_get page corpus = Some ∅ ->
  exists dist w',
    transition_model corpus page damping_factor w = (Ok dist, w') /\
    dict_keys dist = dict_keys corpus /\
    forall p, p ∈ dict_keys corpus ->
      dict_get p dist =
        Some (fdiv (of_int 1) (of_int (Z.of_nat (length corpus)))).
Proof.
  intros Hd Hget.
  eexists _, _. split; [by apply transition_model_run|].
  unfold transition_dist. split; [apply dict_keys_tabulate|].
  intros p Hp. by rewrite dict_get_tabulate.
Qed.

(** ** One pass of [iterate_pagerank] *)

Lemma filter_M_pure {A} (f : A -> M R F bool) (g : A -> bool) (l : list A) w :
  (forall x w', x ∈ l -> f x w' = (Ok (g x), w')) ->
  filter_M f l w = (Ok (filter (fun x => g x = true) l), w).
Proof.
  induction l as [|x l IH]; intros H; [done|].
  simpl. unfold bind. rewrite H by (apply elem_of_cons; by left).
  rewrite IH by (intros y w' Hy; apply H, elem_of_cons; by right).
  unfold ret. rewrite filter_cons. by destruct (g x).
Qed.

Lemma for_each_append {A B} (f : A -> list B -> M R F (list B))
    (g : A -> B) (l : list A) (acc : list B) w :
  (forall x acc' w', x ∈ l -> f x acc' w' = (Ok (acc' ++ [g x]), w')) ->
  for_each l f acc w = (Ok (acc ++ (g <$> l)), w).
Proof.
  revert acc. induction l as [|x l IH]; intros acc H.
  - simpl. unfold ret. by rewrite app_nil_r.
  - simpl. unfold bind. rewrite H by (apply elem_of_cons; by left).
    rewrite IH by (intros y acc' w' Hy; apply H, elem_of_cons; by right).
    by rewrite <- app_assoc.
Qed.

Lemma spec_parents_elem corpus p q :
  q ∈ spec_parents corpus p <->
  exists links, dict_get q corpus = Some links /\ p ∈ links.
Proof.
  unfold spec_parents, links_to. rewrite list_elem_of_filter. split.
  - intros [Hl Hq]. destruct (dict_get q corpus) as [links|]; [|done].
    exists links. split; [done|]. by apply bool_decide_eq_true in Hl.
  - intros (links & Hget & Hp). rewrite Hget. split.
    + by apply bool_decide_eq_true.
    + by eapply dict_get_Some_keys.
Qed.

(** A parent has at least one link. *)
Lemma spec_parents_out_degree corpus p q :
  q ∈ spec_parents corpus p -> 0 < out_degree corpus q.
Proof.
  intros (links & Hget & Hp)%spec_parents_elem. unfold out_degree.
  rewrite Hget. assert (size links ≠ 0%nat); [|lia].
  intros Hz. apply size_empty_iff in Hz. set_solver.
Qed.

(** The body of the [for] loop on one page. *)
Lemma iterate_page_run corpus damping_factor previous_state page
    (iterate_PR : dict F) (changes : F) w :
  is_dict corpus ->
  dict_keys previous_state = dict_keys corpus ->
  page ∈ dict_keys corpus ->
  let new := spec_new_rank corpus damping_factor previous_state page in
  iterate_page corpus damping_factor previous_state page
    (iterate_PR, changes) w =
  (Ok (dict_set page new iterate_PR,
       running_max changes (fabs (fsub new (rank_of previous_state page)))),
   w).
Proof.
  intros Hd Hkeys Hpage new. unfold iterate_page.
  unfold bind at 1.
  rewrite (filter_M_pure _ (links_to corpus page)).
  2:{ intros q w' Hq. destruct (dict_get_keys _ _ Hq) as [links Hget].
      unfold bind. rewrite (subscript_Some _ _ _ _ Hget).
      unfold links_to. by rewrite Hget. }
  fold (spec_parents corpus page).
  unfold bind at 1. rewrite truediv_nonzero.
  2:{ destruct corpus; [by apply elem_of_nil in Hpage | simpl; lia]. }
  assert (for_each (spec_parents corpus page)
            (fun parent (second : list F) =>
               links <- subscript corpus parent ;;
               prev <- subscript previous_state parent ;;
               val <- truediv prev (Z.of_nat (size links)) ;;
               ret (second ++ [val])) [] w =
          (Ok ((fun q => fdiv (rank_of previous_state q)
                           (of_int (out_degree corpus q)))
               <$> spec_parents corpus page), w)) as Hsecond.
  { rewrite (for_each_append _
               (fun q => fdiv (rank_of previous_state q)
                           (of_int (out_degree corpus q)))); [done|].
    intros q acc' w' Hq.
    pose proof (spec_parents_out_degree _ _ _ Hq) as Hdeg.
    apply spec_parents_elem in Hq as (links & Hget & Hp).
    unfold out_degree in Hdeg |- *. rewrite Hget in Hdeg |- *.
    assert (q ∈ dict_keys previous_state) as Hprev.
    { rewrite Hkeys. by eapply dict_get_Some_keys. }
    destruct (dict_get_keys _ _ Hprev) as [v Hv].
    unfold bind. rewrite (subscript_Some _ _ _ _ Hget).
    rewrite (subscript_Some _ _ _ _ Hv).
    rewrite truediv_nonzero by lia.
    unfold rank_of. by rewrite Hv. }
  unfold bind at 1.
  assert (page ∈ dict_keys previous_state) as Hprev by (by rewrite Hkeys).
  destruct (dict_get_keys _ _ Hprev) as [old Hold].
  destruct (Z.of_nat (length (spec_parents corpus page)) =? 0) eqn:Hlen;
    cbn [negb].
  - assert (spec_parents corpus page = []) as Hnil.
    { apply Z.eqb_eq in Hlen. destruct (spec_parents corpus page);
        [done | simpl in Hlen; lia]. }
    unfold ret at 1. unfold bind.
    rewrite (subscript_Some _ _ _ _ (dict_get_set_eq _ _ _)).
    rewrite (subscript_Some _ _ _ _ Hold).
    unfold ret, new, spec_new_rank, rank_of. rewrite Hold, Hnil. done.
  - rewrite Hsecond. unfold bind.
    rewrite (subscript_Some _ _ _ _ (dict_get_set_eq _ _ _)).
    rewrite (subscript_Some _ _ _ _ Hold).
    unfold ret, new, spec_new_rank, rank_of. rewrite Hold. done.
Qed.

(** The [for] loop over the pages [ks2], when the pages [ks1] before
    them already hold their new rank: the update in place never reads an
    entry it has written, because the body reads [previous_state]. *)
Lemma iterate_sweep_loop corpus damping_factor previous_state
    (r : string -> F) (ks1 ks2 : list string) (changes : F) w :
  is_dict corpus ->
  dict_keys previous_state = dict_keys corpus ->
  NoDup (ks1 ++ ks2) ->
  (forall p, p ∈ ks2 -> p ∈ dict_keys corpus) ->
  let new := spec_new_rank corpus damping_factor previous_state in
  for_each ks2 (iterate_page corpus damping_factor previous_state)
    (tabulate new ks1 ++ tabulate r ks2, changes) w =
  (Ok (tabulate new (ks1 ++ ks2),
       fold_left running_max
         ((fun p => fabs (fsub (new p) (rank_of previous_state p))) <$> ks2)
         changes),
   w).
Proof.
  intros Hd Hkeys Hnd Hin new. revert ks1 changes Hnd.
  induction ks2 as [|p ks2 IH]; intros ks1 changes Hnd.
  - simpl. unfold ret. by rewrite !app_nil_r.
  - cbn [for_each]. unfold bind.
    rewrite iterate_page_run by (done || apply Hin, elem_of_cons; by left).
    fold new.
    change (tabulate r (p :: ks2)) with ((p, r p) :: tabulate r ks2).
    rewrite dict_set_at.
    2:{ rewrite dict_keys_tabulate. apply NoDup_app in Hnd as (_ & Hdisj & _).
        intros Hp. apply (Hdisj p Hp). apply elem_of_cons. by left. }
    replace (tabulate new ks1 ++ (p, new p) :: tabulate r ks2)
      with (tabulate new (ks1 ++ [p]) ++ tabulate r ks2)
      by (by rewrite tabulate_app, <- app_assoc).
    rewrite IH.
    + by rewrite <- app_assoc.
    + intros q Hq. apply Hin, elem_of_cons. by right.
    + by rewrite <- app_assoc.
Qed.

(** One pass of the [while] body is one iteration of the specification. *)
Lemma iterate_sweep_run corpus damping_factor (iterate_PR : dict F) w :
  is_dict corpus ->
  dict_keys iterate_PR = dict_keys corpus ->
  iterate_sweep corpus damping_factor iterate_PR w =
  (Ok (spec_sweep corpus damping_factor iterate_PR,
       spec_max_change corpus damping_factor iterate_PR), w).
Proof.
  intros Hd Hkeys. unfold iterate_sweep.
  assert (is_dict iterate_PR) as Hdict by (unfold is_dict; by rewrite Hkeys).
  pose proof (iterate_sweep_loop corpus damping_factor iterate_PR
                (rank_of iterate_PR) [] (dict_keys iterate_PR) (of_int 0) w
                Hd Hkeys Hdict) as Hloop.
  cbn zeta in Hloop. rewrite !app_nil_l in Hloop.
  change (tabulate _ [] ++ ?x) with x in Hloop.
  unfold rank_of at 1 in Hloop.
  rewrite <- (dict_as_tabulate (of_int 0) iterate_PR Hdict) in Hloop.
  apply Hloop. intros p. by rewrite Hkeys.
Qed.

Lemma dict_keys_spec_ranks corpus damping_factor (k : nat) :
  dict_keys (spec_ranks corpus damping_factor k) = dict_keys corpus.
Proof.
  induction k as [|k IH]; cbn [spec_ranks].
  - apply dict_keys_tabulate.
  - unfold spec_sweep. by rewrite dict_keys_tabulate.
Qed.

(** [iterate_init] builds the uniform start. *)
Lemma iterate_init_run corpus w :
  is_dict corpus -> iterate_init corpus w = (Ok (spec_init corpus), w).
Proof.
  intros Hd. unfold iterate_init.
  rewrite (for_each_tabulate _
             (fun _ => fdiv (of_int 1) (of_int (Z.of_nat (length corpus))))
             _ [] w Hd); [done | intros; apply not_elem_of_nil |].
  intros k acc' w' Hk. unfold bind, truediv_int.
  rewrite truediv_nonzero; [done|].
  destruct corpus; [by apply elem_of_nil in Hk | simpl; lia].
Qed.

(** One turn of the [while] loop. *)
Lemma iterate_loop_turn corpus damping_factor (fuel : nat)
    (iterate_PR : dict F) (changes : F) (iterations : Z) w :
  is_dict corpus ->
  dict_keys iterate_PR = dict_keys corpus ->
  iterate_loop fuel corpus damping_factor (iterate_PR, changes, iterations) w =
  if fge changes lit_0_001 then
    match fuel with
    | O => (OutOfFuel, w)
    | S fuel' =>
        iterate_loop fuel' corpus damping_factor
          (spec_sweep corpus damping_factor iterate_PR,
           spec_max_change corpus damping_factor iterate_PR,
           iterations + 1) w
    end
  else (Ok (iterate_PR, changes, iterations), w).
Proof.
  intros Hd Hkeys. destruct fuel as [|fuel]; cbn [iterate_loop].
  - by destruct (fge changes lit_0_001).
  - destruct (fge changes lit_0_001); [|done].
    unfold bind. by rewrite iterate_sweep_run.
Qed.

(** The loop stops at the first iteration whose maximum change fails the
    test [changes >= 0.001], and not before. *)
Lemma iterate_loop_stops corpus damping_factor (j k fuel : nat)
    (changes : F) (iterations : Z) w :
  is_dict corpus ->
  fge changes lit_0_001 = true ->
  (forall i, (i < j)%nat ->
     fge (spec_change corpus damping_factor (k + i)) lit_0_001 = true) ->
  fge (spec_change corpus damping_factor (k + j)) lit_0_001 = false ->
  (j < fuel)%nat ->
  iterate_loop fuel corpus damping_factor
    (spec_ranks corpus damping_factor k, changes, iterations) w =
  (Ok (spec_ranks corpus damping_factor (k + j + 1),
       spec_change corpus damping_factor (k + j),
       iterations + Z.of_nat j + 1), w).
Proof.
  intros Hd. revert k fuel changes iterations.
  induction j as [|j IH]; intros k fuel changes iterations Hch Hge Hlt Hfuel.
  - destruct fuel as [|fuel]; [lia|].
    rewrite iterate_loop_turn, Hch by (done || apply dict_keys_spec_ranks).
    rewrite Nat.add_0_r in Hlt |- *.
    change (spec_sweep corpus damping_factor
              (spec_ranks corpus damping_factor k))
      with (spec_ranks corpus damping_factor (S k)).
    fold (spec_change corpus damping_factor k).
    rewrite iterate_loop_turn, Hlt by (done || apply dict_keys_spec_ranks).
    replace (k + 1)%nat with (S k) by lia.
    by rewrite Z.add_0_r.
  - destruct fuel as [|fuel]; [lia|].
    rewrite iterate_loop_turn, Hch by (done || apply dict_keys_spec_ranks).
    change (spec_sweep corpus damping_factor
              (spec_ranks corpus damping_factor k))
      with (spec_ranks corpus damping_factor (S k)).
    fold (spec_change corpus damping_factor k).
    rewrite (IH (S k) fuel).
    + replace (S k + j + 1)%nat with (k + S j + 1)%nat by lia.
      replace (S k + j)%nat with (k + S j)%nat by lia.
      do 3 f_equal. lia.
    + specialize (Hge 0%nat ltac:(lia)). by rewrite Nat.add_0_r in Hge.
    + intros i Hi. specialize (Hge (S i) ltac:(lia)).
      by replace (S k + i)%nat with (k + S i)%nat by lia.
    + by replace (S k + j)%nat with (k + S j)%nat by lia.
    + lia.
Qed.


(** Lines 198-203: the division by the sum and the two printed lines. *)
Lemma iterate_pagerank_finish corpus damping_factor (fuel : nat)
    (final : dict F) (changes : F) (iterations : Z) w :
  is_dict corpus ->
  iterate_loop fuel corpus damping_factor (spec_init corpus, of_int 1, 1) w =
    (Ok (final, changes, iterations), w) ->
  fis_zero (py_sum (dict_values final)) = false ->
  let result :=
    (fun kv : string * F =>
       (kv.1, fdiv kv.2 (py_sum (dict_values final)))) <$> final in
  iterate_pagerank fuel corpus damping_factor w =
    (Ok result,
     World (rng w)
       (stdout w ++
        [StableAfter iterations; SumOfIterate (py_sum (dict_values result))])).
Proof.
  intros Hd Hloop Hnz result. unfold iterate_pagerank.
  unfold bind at 1. rewrite (iterate_init_run _ _ Hd).
  unfold bind at 1. rewrite Hloop.
  unfold bind at 1.
  rewrite (map_M_pure _
             (fun kv : string * F =>
                (kv.1, fdiv kv.2 (py_sum (dict_values final))))).
  - fold result. unfold bind, print, ret. simpl. by rewrite <- app_assoc.
  - intros [k v] w' _. unfold bind, truediv_float. by rewrite Hnz.
Qed.

(** ** The loop of [sample_pagerank] *)

Lemma count_visits_cons (p s : string) (samples : list string) :
  count_visits p (s :: samples) =
    (if decide (p = s) then 1 else 0) + count_visits p samples.
Proof.
  unfold count_visits. rewrite filter_cons.
  destruct (decide (s = p)) as [->|Hne].
  - rewrite decide_True by done. simpl length. lia.
  - rewrite decide_False by done. lia.
Qed.

(** The first pass of the loop: [sample] is [None]. *)
Lemma sample_step_None corpus damping_factor iteration (c : string -> Z)
    w s w1 :
  is_dict corpus ->
  py_random_choice (dict_keys corpus) w = (Ok s, w1) ->
  s ∈ dict_keys corpus ->
  sample_step corpus damping_factor iteration
    (None, tabulate c (dict_keys corpus)) w =
  (Ok (Some s,
       tabulate (fun p => c p + count_visits p [s]) (dict_keys corpus)), w1).
Proof.
  intros Hd Hdraw Hs. unfold sample_step, bind. rewrite Hdraw.
  rewrite (subscript_Some _ _ (c s)) by (by apply dict_get_tabulate).
  unfold ret. rewrite dict_set_tabulate by done.
  do 2 f_equal. f_equal. apply tabulate_ext. intros p Hp.
  rewrite count_visits_cons. unfold count_visits. simpl.
  destruct (decide (p = s)) as [->|]; lia.
Qed.

(** A later pass: [sample] is the page [current]. *)
Lemma sample_step_Some corpus damping_factor iteration current links
    (c : string -> Z) w s w1 :
  is_dict corpus ->
  dict_get current corpus = Some links ->
  (dist <- transition_model corpus current damping_factor ;;
   draw_weighted dist) w = (Ok s, w1) ->
  s ∈ dict_keys corpus ->
  sample_step corpus damping_factor iteration
    (Some current, tabulate c (dict_keys corpus)) w =
  (Ok (Some s,
       tabulate (fun p => c p + count_visits p [s]) (dict_keys corpus)), w1).
Proof.
  intros Hd Hget Hdraw Hs. unfold sample_step.
  unfold bind in Hdraw |- *.
  rewrite (transition_model_run _ _ _ _ _ Hd Hget) in Hdraw |- *.
  unfold transition_dist in Hdraw |- *.
  rewrite dict_keys_tabulate, map_M_subscript_tabulate.
  unfold draw_weighted, bind in Hdraw.
  rewrite dict_keys_tabulate, dict_values_tabulate in Hdraw.
  destruct (py_random_choices _ _ _) as [[drawn| |] w2]; [|done|done].
  destruct (list_pop drawn w2) as [[s'| |] w3]; [|done|done].
  injection Hdraw as -> ->.
  rewrite (subscript_Some _ _ (c s)) by (by apply dict_get_tabulate).
  unfold ret. rewrite dict_set_tabulate by done.
  do 2 f_equal. f_equal. apply tabulate_ext. intros p Hp.
  rewrite count_visits_cons. unfold count_visits. simpl.
  destruct (decide (p = s)) as [->|]; lia.
Qed.

(** The passes after the first one draw the samples of [spec_walk] and
    count them. *)
Lemma sample_loop_walk corpus damping_factor (idxs : list Z) current
    (c : string -> Z) w samples w1 :
  is_dict corpus ->
  current ∈ dict_keys corpus ->
  spec_walk (length idxs) corpus damping_factor current w = (Ok samples, w1) ->
  Forall (fun s => s ∈ dict_keys corpus) samples ->
  exists final,
    for_each idxs (sample_step corpus damping_factor)
      (Some current, tabulate c (dict_keys corpus)) w =
    (Ok (Some final,
         tabulate (fun p => c p + count_visits p samples) (dict_keys corpus)),
     w1).
Proof.
  intros Hd. revert current c w samples.
  induction idxs as [|i idxs IH]; intros current c w samples Hcur Hwalk Hall.
  - simpl in Hwalk. injection Hwalk as <- <-. exists current. simpl.
    unfold ret. do 2 f_equal. f_equal. apply tabulate_ext. intros p _.
    unfold count_visits. simpl. lia.
  - destruct (dict_get_keys _ _ Hcur) as [links Hget].
    simpl in Hwalk.
    destruct ((dist <- transition_model corpus current damping_factor ;;
               draw_weighted dist) w) as [[s| |] w2] eqn:Hdraw.
    + pose proof Hdraw as Hstep.
      unfold bind in Hwalk, Hdraw.
      destruct (transition_model corpus current damping_factor w)
        as [[dist| |] wa]; [|done|done].
      rewrite Hdraw in Hwalk.
      destruct (spec_walk (length idxs) corpus damping_factor s w2)
        as [[rest| |] w3] eqn:Hrest; [|done|done].
      injection Hwalk as <- <-.
      apply Forall_cons in Hall as [Hs Hall].
      destruct (IH s (fun p => c p + count_visits p [s]) w2 rest Hs Hrest Hall)
        as [final Hfinal].
      exists final. cbn [for_each]. unfold bind at 1.
      rewrite (sample_step_Some _ _ _ _ links c w s w2 Hd Hget Hstep Hs).
      rewrite Hfinal. do 2 f_equal. f_equal. apply tabulate_ext. intros p _.
      rewrite (count_visits_cons p s rest), (count_visits_cons p s []).
      unfold count_visits at 1. simpl. lia.
    + unfold bind in Hwalk, Hdraw.
      destruct (transition_model corpus current damping_factor w)
        as [[dist| |] wa]; [|done|done].
      by rewrite Hdraw in Hwalk.
    + unfold bind in Hwalk, Hdraw.
      destruct (transition_model corpus current damping_factor w)
        as [[dist| |] wa]; [|done|done].
      by rewrite Hdraw in Hwalk.
Qed.

(** C7, as the program has it.  When the check of the rounded sum fails
    in [transition_model], the function prints the line
    [ERROR! Probabilities add up to ...] and returns the dict as usual:
    nothing is raised. *)
Theorem transition_model_failed_check_prints corpus page links
    damping_factor w :
  is_dict corpus ->
  dict_get page corpus = Some links ->
  exists dist,
    (transition_model corpus page damping_factor w).1 = Ok dist /\
    (fne (fround (py_sum (dict_values dist)) 5) (of_int 1) = true ->
     (transition_model corpus page damping_factor w).2 =
       World (rng w)
         (stdout w ++ [ErrorProbabilities (py_sum (dict_values dist))])).
Proof.
  intros Hd Hget. rewrite (transition_model_run _ _ _ _ _ Hd Hget).
  eexists. split; [done|]. simpl. unfold after_sum_check. by intros ->.
Qed.

(** C10.  When the counters were computed and the check of their rounded
    sum fails, [sample_pagerank] raises [NameError] for [trans_mod]: it
    prints nothing and returns nothing. *)
Theorem sample_pagerank_failed_check_NameError corpus damping_factor n w
    sample_PR w' :
  sample_counts corpus damping_factor n w = (Ok sample_PR, w') ->
  fne (fround (py_sum (dict_values sample_PR)) 5) (of_int 1) = true ->
  sample_pagerank corpus damping_factor n w =
    (Raise (NameError "trans_mod"), w').
Proof.
  intros Hcounts Hcheck. unfold sample_pagerank, bind.
  by rewrite Hcounts, Hcheck.
Qed.

End Generic.

(** Closed instances on the test data. *)

Ltac decide_closed := apply (bool_decide_unpack _); vm_compute; exact I.

Lemma transition_model_linked_witness :
  exists dist w',
    run (transition_model two_pages "A" (85 # 100)%Q) = (Ok dist, w') /\
    dict_keys dist = ["A"; "B"] /\
    forall p, p ∈ dict_keys two_pages ->
      dict_get p dist =
        Some (if bool_decide (p ∈ ({["B"]} : gset string)) then
                fadd (fdiv (85 # 100)%Q (of_int 1))
                     (fdiv (fsub (of_int 1) (85 # 100)%Q) (of_int 2))
              else fdiv (fsub (of_int 1) (85 # 100)%Q) (of_int 2)).
Proof.
  refine (transition_model_linked two_pages "A" {["B"]} (85 # 100)%Q w0 _ _ _).
  - unfold is_dict. decide_closed.
  - reflexivity.
  - vm_compute. lia.
Defined.

Lemma transition_model_dangling_witness :
  exists dist w',
    run (transition_model dangling_pair "A" (85 # 100)%Q) = (Ok dist, w') /\
    dict_keys dist = ["A"; "B"] /\
    forall p, p ∈ dict_keys dangling_pair ->
      dict_get p dist = Some (fdiv (of_int 1) (of_int 2)).
Proof.
  refine (transition_model_dangling dangling_pair "A" (85 # 100)%Q w0 _ _).
  - unfold is_dict. decide_closed.
  - reflexivity.
Defined.

(** C7, as stated, fails: on a mapping with a link to an unknown page the
    entries sum to [3/20], the check fails, and [transition_model] still
    returns the dict, having only printed the error line. *)
Lemma transition_model_failed_check_returns :
  run (transition_model stray_link "A" (85 # 100)%Q) =
    (Ok [("A", (3 # 20)%Q)], World (rng w0) [ErrorProbabilities (3 # 20)%Q]) /\
  fne (fround (py_sum [(3 # 20)%Q]) 5) (of_int 1) = true.
Proof. split; vm_compute; reflexivity. Qed.

Lemma transition_model_failed_check_prints_witness :
  exists dist,
    (run (transition_model stray_link "A" (85 # 100)%Q)).1 = Ok dist /\
    (fne (fround (py_sum (dict_values dist)) 5) (of_int 1) = true ->
     (run (transition_model stray_link "A" (85 # 100)%Q)).2 =
       World (rng w0)
         (stdout w0 ++ [ErrorProbabilities (py_sum (dict_values dist))])).
Proof.
  refine (transition_model_failed_check_prints stray_link "A" {["B"]}
            (85 # 100)%Q w0 _ _).
  - unfold is_dict. decide_closed.
  - reflexivity.
Defined.

Lemma sample_pagerank_failed_check_NameError_witness :
  run (sample_pagerank dangling_pair (85 # 100)%Q (-1)) =
    (Raise (NameError "trans_mod"), w0).
Proof.
  refine (sample_pagerank_failed_check_NameError dangling_pair (85 # 100)%Q
            (-1) w0 [("A", 0%Q); ("B", 0%Q)] w0 _ _).
  - vm_compute. reflexivity.
  - vm_compute. reflexivity.
Defined.

(** * The test generator obeys the contract of [random] *)

Lemma pick_elem (seq : list string) (i : nat) :
  seq ≠ [] -> exists s, pick seq i = Ok s /\ s ∈ seq.
Proof.
  intros Hne. unfold pick.
  destruct (lookup_lt_is_Some_2 seq (Nat.min i (length seq - 1))) as [s Hs].
  - destruct seq; [done | simpl; lia].
  - rewrite Hs. exists s. split; [done|]. by eapply list_elem_of_lookup_2.
Qed.

Lemma length_accumulate_from acc ws :
  length (accumulate_from acc ws) = length ws.
Proof. revert acc. induction ws as [|x ws IH]; intros acc; simpl; [done | by rewrite IH]. Qed.

Lemma accumulate_from_pos acc ws :
  (0 < acc)%Q -> Forall (fun x => (0 < x)%Q) ws ->
  Forall (fun x => (0 < x)%Q) (accumulate_from acc ws).
Proof.
  intros Hacc Hws. revert acc Hacc.
  induction Hws as [|x ws Hx Hws IH]; intros acc Hacc; simpl; [constructor|].
  assert (0 < Qred (acc + x))%Q by (rewrite Qred_correct; lra).
  constructor; [done | by apply IH].
Qed.

Lemma accumulate_pos ws :
  Forall (fun x => (0 < x)%Q) ws -> Forall (fun x => (0 < x)%Q) (accumulate ws).
Proof.
  destruct 1 as [|x ws Hx Hws]; simpl; [constructor|].
  constructor; [done | by apply accumulate_from_pos].
Qed.

Lemma length_accumulate ws : length (accumulate ws) = length ws.
Proof. destruct ws; simpl; [done | by rewrite length_accumulate_from]. Qed.

#[export] Instance TestRandom_laws : RandomLaws (list Q).
Proof.
  split.
  - done.
  - intros seq r Hne. simpl. destruct seq as [|s0 seq]; [done|].
    destruct (next_variate r) as [u r']. simpl. by apply pick_elem.
  - intros population weights r Hne Hlen Hpos. simpl.
    rewrite length_accumulate, Hlen, Nat.eqb_refl. simpl.
    pose proof (accumulate_pos _ Hpos) as Hcum.
    destruct (last (accumulate weights)) as [total|] eqn:Hlast.
    + assert (0 < total)%Q as Htotal.
      { apply last_Some_elem_of in Hlast.
        by apply (proj1 (Forall_forall _ _) Hcum) in Hlast. }
      destruct (Qle_bool total 0) eqn:Hle.
      { apply Qle_bool_iff in Hle. lra. }
      destruct (next_variate r) as [u r']. simpl.
      destruct (pick_elem population
                  (bisect (accumulate weights) (u * total)
                     (length population - 1)) Hne) as (s & -> & Hs).
      by exists s.
    + apply last_None in Hlast.
      assert (length (accumulate weights) = 0%nat) as Hz by (by rewrite Hlast).
      rewrite length_accumulate, Hlen in Hz.
      destruct population; [done | discriminate].
Qed.

(** * Facts of exact arithmetic *)


Lemma fadd_exact (x y : Q) : (fadd x y == x + y)%Q.
Proof. apply Qred_correct. Qed.

Lemma fsub_exact (x y : Q) : (fsub x y == x - y)%Q.
Proof. apply Qred_correct. Qed.

Lemma fmul_exact (x y : Q) : (fmul x y == x * y)%Q.
Proof. apply Qred_correct. Qed.

Lemma fdiv_exact (x y : Q) : (fdiv x y == x / y)%Q.
Proof. apply Qred_correct. Qed.

Lemma fabs_exact (x : Q) : (fabs x == Qabs x)%Q.
Proof. apply Qred_correct. Qed.


Lemma fold_left_fadd_exact (l : list Q) (a : Q) :
  (fold_left fadd l a == a + Qsum l)%Q.
Proof.
  revert a. induction l as [|x l IH]; intros a; simpl.
  - unfold Qsum. simpl. ring.
  - rewrite IH. unfold Qsum. simpl. rewrite Qred_correct. ring.
Qed.

Lemma py_sum_exact (l : list Q) : (py_sum l == Qsum l)%Q.
Proof. unfold py_sum. rewrite fold_left_fadd_exact. simpl. ring. Qed.

Lemma round_half_even_comp (x y : Q) :
  (x == y)%Q -> round_half_even x = round_half_even y.
Proof.
  intros H. unfold round_half_even.
  rewrite (Qfloor_comp x y H).
  assert ((x - inject_Z (Qfloor y) ?= 1 # 2) =
          (y - inject_Z (Qfloor y) ?= 1 # 2))%Q as ->; [|done].
  apply Qcompare_comp; [by rewrite H | reflexivity].
Qed.

(** The check of the rounded sum passes on a sum equal to [1]. *)
Lemma sum_check_passes (s : Q) :
  (s == 1)%Q -> fne (fround s 5) (of_int 1) = false.
Proof.
  intros H. simpl. unfold Qround_digits.
  rewrite (round_half_even_comp (s * inject_Z 10 ^ 5) (100000 # 1)).
  - reflexivity.
  - rewrite H. reflexivity.
Qed.

Lemma Qsum_fmap_ext {A} (f g : A -> Q) (l : list A) :
  (forall x, x ∈ l -> (f x == g x)%Q) -> (Qsum (f <$> l) == Qsum (g <$> l))%Q.
Proof.
  induction l as [|x l IH]; intros H; [reflexivity|].
  unfold Qsum in *. simpl. rewrite IH, (H x).
  - reflexivity.
  - apply elem_of_cons. by left.
  - intros y Hy. apply H, elem_of_cons. by right.
Qed.

(** A sum of terms [bonus + base] in which the bonus goes to the elements
    that satisfy [b]. *)
Lemma Qsum_bonus {A} (b : A -> bool) (bonus base : Q) (l : list A) :
  (Qsum ((fun x => (if b x then bonus else 0) + base) <$> l) ==
   inject_Z (Z.of_nat (length (filter (fun x => b x = true) l))) * bonus +
   inject_Z (Z.of_nat (length l)) * base)%Q.
Proof.
  induction l as [|x l IH]; [reflexivity|].
  unfold Qsum in *. cbn [fmap list_fmap foldr]. rewrite IH. clear IH.
  rewrite filter_cons. cbn [length].
  rewrite !Nat2Z.inj_succ. unfold Z.succ. rewrite !inject_Z_plus.
  destruct (b x) eqn:Hb.
  - rewrite decide_True by done. cbn [length].
    rewrite Nat2Z.inj_succ. unfold Z.succ. rewrite inject_Z_plus. ring.
  - rewrite decide_False by done. ring.
Qed.

(** The pages of a dict that are in a set of pages of this dict are as
    many as the set has elements. *)
Lemma length_filter_links (ks : list string) (links : gset string) :
  NoDup ks ->
  (forall p, p ∈ links -> p ∈ ks) ->
  length (filter (fun p => bool_decide (p ∈ links) = true) ks) = size links.
Proof.
  intros Hnd Hsub.
  rewrite <- (size_list_to_set (C:=gset string)) by (by apply NoDup_filter).
  f_equal. apply set_eq. intros p.
  rewrite elem_of_list_to_set, list_elem_of_filter, bool_decide_eq_true.
  split; [by intros [? _] | intros; split; auto].
Qed.

Lemma length_filter_links_le (ks : list string) (links : gset string) :
  NoDup ks ->
  (length (filter (fun p => bool_decide (p ∈ links) = true) ks) <= size links)%nat.
Proof.
  intros Hnd.
  rewrite <- (size_list_to_set (C:=gset string)) by (by apply NoDup_filter).
  apply subseteq_size. intros p.
  rewrite elem_of_list_to_set, list_elem_of_filter, bool_decide_eq_true.
  by intros [? _].
Qed.

Lemma inject_Z_nonzero (n : Z) : n <> 0 -> ~ (inject_Z n == 0)%Q.
Proof. intros Hn H. apply Hn. by apply (inject_Z_injective n 0). Qed.

(** The entries of [transition_model] as rationals. *)
Lemma transition_value_exact (corpus : dict (gset string))
    (links : gset string) (d : Q) (p : string) :
  let num_pages := inject_Z (Z.of_nat (length corpus)) in
  let num_links := inject_Z (Z.of_nat (size links)) in
  (transition_value corpus links d p ==
   if Z.of_nat (size links) =? 0 then 1 / num_pages
   else (if bool_decide (p ∈ links) then d / num_links else 0) +
        (1 - d) / num_pages)%Q.
Proof.
  intros num_pages num_links. unfold transition_value.
  destruct (Z.of_nat (size links) =? 0); [apply fdiv_exact|].
  destruct (bool_decide (p ∈ links)).
  - rewrite fadd_exact, !fdiv_exact, fsub_exact. reflexivity.
  - rewrite fdiv_exact, fsub_exact. unfold num_pages, Qdiv.
    cbn [of_int ExactQ]. change (inject_Z 1) with 1%Q. ring.
Qed.

Lemma transition_dist_sum (corpus : dict (gset string)) (page : string)
    (links : gset string) (d : Q) :
  is_dict corpus ->
  dict_get page corpus = Some links ->
  (forall p, p ∈ links -> p ∈ dict_keys corpus) ->
  (py_sum (dict_values (transition_dist corpus links d)) == 1)%Q.
Proof.
  intros Hd Hget Hsub. rewrite py_sum_exact.
  unfold transition_dist. rewrite dict_values_tabulate.
  assert (~ (inject_Z (Z.of_nat (length corpus)) == 0)%Q) as Hn.
  { apply inject_Z_nonzero. destruct corpus; [done | simpl; lia]. }
  rewrite (Qsum_fmap_ext _ _ _
             (fun p _ => transition_value_exact corpus links d p)).
  destruct (Z.of_nat (size links) =? 0) eqn:Hz.
  - rewrite (Qsum_fmap_ext _ (fun p => (if false then 0 else 0) +
               1 / inject_Z (Z.of_nat (length corpus)))%Q)
      by (intros; simpl; ring).
    rewrite (Qsum_bonus (fun _ => false) 0), dict_length_keys. field. done.
  - apply Z.eqb_neq in Hz.
    rewrite (Qsum_bonus (fun p => bool_decide (p ∈ links))).
    rewrite length_filter_links, dict_length_keys by done.
    field. split; [done | by apply inject_Z_nonzero].
Qed.

Lemma Qsum_plus {A} (f g : A -> Q) (l : list A) :
  (Qsum ((fun x => f x + g x) <$> l) == Qsum (f <$> l) + Qsum (g <$> l))%Q.
Proof.
  induction l as [|x l IH]; [reflexivity|].
  unfold Qsum in *. cbn [fmap list_fmap foldr]. rewrite IH. ring.
Qed.

Lemma Qsum_scale {A} (f : A -> Q) (c : Q) (l : list A) :
  (Qsum ((fun x => f x * c) <$> l) == Qsum (f <$> l) * c)%Q.
Proof.
  induction l as [|x l IH]; [reflexivity|].
  unfold Qsum in *. cbn [fmap list_fmap foldr]. rewrite IH. ring.
Qed.

Lemma inject_Z_pos (n : Z) : 0 < n -> (0 < inject_Z n)%Q.
Proof. intros Hn. change 0%Q with (inject_Z 0). by rewrite <- Zlt_Qlt. Qed.

Lemma Qdiv_pos (a b : Q) : (0 < a -> 0 < b -> 0 < a / b)%Q.
Proof. intros Ha Hb. apply Qlt_shift_div_l; [done | lra]. Qed.

(** With a damping factor in (0, 1) every weight is positive. *)
Lemma transition_value_pos (corpus : dict (gset string)) (page : string)
    (links : gset string) (d : Q) (p : string) :
  dict_get page corpus = Some links ->
  (0 < d)%Q -> (d < 1)%Q ->
  (0 < transition_value corpus links d p)%Q.
Proof.
  intros Hget Hd0 Hd1. rewrite transition_value_exact.
  assert (0 < inject_Z (Z.of_nat (length corpus)))%Q as Hn.
  { apply inject_Z_pos. destruct corpus; [done | simpl; lia]. }
  destruct (Z.of_nat (size links) =? 0) eqn:Hz.
  - apply Qdiv_pos; [lra | done].
  - apply Z.eqb_neq in Hz.
    assert (0 < inject_Z (Z.of_nat (size links)))%Q as Hl
      by (apply inject_Z_pos; lia).
    assert (0 < (1 - d) / inject_Z (Z.of_nat (length corpus)))%Q
      by (apply Qdiv_pos; [lra | done]).
    destruct (bool_decide (p ∈ links)); [|lra].
    assert (0 < d / inject_Z (Z.of_nat (size links)))%Q
      by (by apply Qdiv_pos).
    lra.
Qed.

(** Every sample is counted once, at its own page. *)
Lemma sum_count_visits (ks samples : list string) :
  NoDup ks ->
  Forall (fun s => s ∈ ks) samples ->
  (Qsum ((fun p => inject_Z (count_visits p samples)) <$> ks) ==
   inject_Z (Z.of_nat (length samples)))%Q.
Proof.
  intros Hnd. induction 1 as [|s samples Hs Hall IH].
  - rewrite (Qsum_bonus (fun _ => false) 0 0 ks).
    change (inject_Z (Z.of_nat (length (@nil string)))) with 0%Q. ring.
  - rewrite (Qsum_fmap_ext _ (fun p =>
        ((if bool_decide (p ∈ ({[s]} : gset string)) then 1 else 0) + 0) +
        inject_Z (count_visits p samples))%Q).
    + rewrite Qsum_plus, IH.
      rewrite (Qsum_bonus (fun p => bool_decide (p ∈ ({[s]} : gset string)))).
      rewrite length_filter_links by (done || set_solver).
      rewrite size_singleton. cbn [length]. change (Z.of_nat 1) with 1.
      rewrite Nat2Z.inj_succ. unfold Z.succ. rewrite inject_Z_plus.
      change (inject_Z 1) with 1%Q. ring.
    + intros p _. rewrite count_visits_cons, inject_Z_plus.
      destruct (decide (p = s)) as [->|Hne].
      * rewrite bool_decide_eq_true_2 by set_solver. simpl. ring.
      * rewrite bool_decide_eq_false_2 by set_solver. simpl. ring.
Qed.

(** The counters divided by the number of samples sum to [1]. *)
Lemma spec_sample_rank_sum (corpus : dict (gset string)) (n : Z)
    (samples : list string) :
  is_dict corpus ->
  Forall (fun s => s ∈ dict_keys corpus) samples ->
  Z.of_nat (length samples) = n ->
  n <> 0 ->
  (py_sum (dict_values (spec_sample_rank corpus n samples)) == 1)%Q.
Proof.
  intros Hd Hall Hlen Hn. rewrite py_sum_exact.
  unfold spec_sample_rank. rewrite dict_values_tabulate.
  rewrite (Qsum_fmap_ext _
             (fun p => inject_Z (count_visits p samples) * / inject_Z n)%Q)
    by (intros; apply fdiv_exact).
  rewrite Qsum_scale, sum_count_visits, Hlen by done.
  field. by apply inject_Z_nonzero.
Qed.

(** ** Sums, for the contraction argument *)

Lemma Qmult_le_compat_l (x y z : Q) : (0 <= z -> x <= y -> z * x <= z * y)%Q.
Proof.
  intros Hz Hxy. rewrite (Qmult_comm z x), (Qmult_comm z y).
  by apply Qmult_le_compat_r.
Qed.

Lemma Qsum_cons (x : Q) (l : list Q) : Qsum (x :: l) = (x + Qsum l)%Q.
Proof. reflexivity. Qed.

Lemma Qsum_fmap_le {A} (f g : A -> Q) (l : list A) :
  (forall x, x ∈ l -> (f x <= g x)%Q) -> (Qsum (f <$> l) <= Qsum (g <$> l))%Q.
Proof.
  induction l as [|x l IH]; intros H; [apply Qle_refl|].
  rewrite !fmap_cons, !Qsum_cons.
  apply Qplus_le_compat.
  - apply H, elem_of_cons. by left.
  - apply IH. intros y Hy. apply H, elem_of_cons. by right.
Qed.

Lemma Qsum_fmap_nonneg {A} (f : A -> Q) (l : list A) :
  (forall x, x ∈ l -> (0 <= f x)%Q) -> (0 <= Qsum (f <$> l))%Q.
Proof.
  induction l as [|x l IH]; intros H; [apply Qle_refl|].
  rewrite fmap_cons, Qsum_cons.
  assert (0 <= f x)%Q by (apply H, elem_of_cons; by left).
  assert (0 <= Qsum (f <$> l))%Q
    by (apply IH; intros y Hy; apply H, elem_of_cons; by right).
  lra.
Qed.

Lemma Qsum_fmap_pos {A} (f : A -> Q) (l : list A) :
  l ≠ [] -> (forall x, x ∈ l -> (0 < f x)%Q) -> (0 < Qsum (f <$> l))%Q.
Proof.
  intros Hne H. destruct l as [|x l]; [done|].
  rewrite fmap_cons, Qsum_cons.
  assert (0 < f x)%Q by (apply H, elem_of_cons; by left).
  assert (0 <= Qsum (f <$> l))%Q.
  { apply Qsum_fmap_nonneg. intros y Hy. apply Qlt_le_weak, H, elem_of_cons.
    by right. }
  lra.
Qed.

Lemma Qabs_Qsum {A} (f : A -> Q) (l : list A) :
  (Qabs (Qsum (f <$> l)) <= Qsum ((fun x => Qabs (f x)) <$> l))%Q.
Proof.
  induction l as [|x l IH]; [by vm_compute|].
  rewrite !fmap_cons, !Qsum_cons.
  eapply Qle_trans; [apply Qabs_triangle|]. lra.
Qed.

Lemma Qsum_minus {A} (f g : A -> Q) (l : list A) :
  (Qsum ((fun x => f x - g x) <$> l) == Qsum (f <$> l) - Qsum (g <$> l))%Q.
Proof.
  induction l as [|x l IH]; [reflexivity|].
  rewrite !fmap_cons, !Qsum_cons, IH. ring.
Qed.

Lemma Qsum_scale_l {A} (f : A -> Q) (c : Q) (l : list A) :
  (Qsum ((fun x => c * f x) <$> l) == c * Qsum (f <$> l))%Q.
Proof.
  induction l as [|x l IH]; [unfold Qsum; simpl; ring|].
  rewrite !fmap_cons, !Qsum_cons, IH. ring.
Qed.

(** A sum over the elements that pass a test is a sum over all elements
    in which the others count as [0]. *)
Lemma Qsum_filter {A} (b : A -> bool) (f : A -> Q) (l : list A) :
  (Qsum (f <$> filter (fun x => b x = true) l) ==
   Qsum ((fun x => if b x then f x else 0) <$> l))%Q.
Proof.
  induction l as [|x l IH]; [reflexivity|].
  rewrite filter_cons, fmap_cons, Qsum_cons. destruct (b x) eqn:Hb.
  - rewrite decide_True by done. rewrite fmap_cons, Qsum_cons, IH. reflexivity.
  - rewrite decide_False by done. rewrite IH. ring.
Qed.

(** The order of two summations can be exchanged. *)
Lemma Qsum_swap {A B} (g : A -> B -> Q) (l1 : list A) (l2 : list B) :
  (Qsum ((fun x => Qsum ((fun y => g x y) <$> l2)) <$> l1) ==
   Qsum ((fun y => Qsum ((fun x => g x y) <$> l1)) <$> l2))%Q.
Proof.
  induction l1 as [|x l1 IH].
  - cbn [fmap list_fmap]. rewrite (Qsum_fmap_ext _ (fun _ => 0 * 0)%Q)
      by (intros; unfold Qsum; simpl; ring).
    rewrite Qsum_scale. unfold Qsum at 1. simpl. ring.
  - rewrite fmap_cons, Qsum_cons, IH.
    rewrite (Qsum_fmap_ext (fun y => Qsum ((fun x0 => g x0 y) <$> x :: l1))
               (fun y => g x y + Qsum ((fun x0 => g x0 y) <$> l1))%Q)
      by (intros; reflexivity).
    rewrite Qsum_plus. reflexivity.
Qed.

(** ** The recurrence is a contraction *)

Lemma rank_of_tabulate {F} `{!PyFloat F} (f : string -> F) (ks : list string)
    (p : string) :
  p ∈ ks -> rank_of (tabulate f ks) p = f p.
Proof. intros Hp. unfold rank_of. by rewrite dict_get_tabulate. Qed.

(** The new rank of a page as a rational: the formula of the
    recurrence. *)
Lemma spec_new_rank_exact (corpus : dict (gset string)) (d : Q)
    (previous : dict Q) (p : string) :
  (spec_new_rank corpus d previous p ==
   (1 - d) / inject_Z (Z.of_nat (length corpus)) +
   d * Qsum ((fun q => rank_of previous q / inject_Z (out_degree corpus q))
             <$> spec_parents corpus p))%Q.
Proof.
  unfold spec_new_rank.
  rewrite fadd_exact, fmul_exact, fdiv_exact, fsub_exact, py_sum_exact.
  rewrite (Qsum_fmap_ext _
             (fun q => rank_of previous q / inject_Z (out_degree corpus q))%Q)
    by (intros; apply fdiv_exact).
  reflexivity.
Qed.

(** The same sum over all pages, the pages that are not parents counting
    as [0]. *)
Lemma spec_new_rank_indicator (corpus : dict (gset string)) (d : Q)
    (previous : dict Q) (p : string) :
  (spec_new_rank corpus d previous p ==
   (1 - d) / inject_Z (Z.of_nat (length corpus)) +
   d * Qsum ((fun q => if links_to corpus p q then
                         rank_of previous q / inject_Z (out_degree corpus q)
                       else 0) <$> dict_keys corpus))%Q.
Proof.
  rewrite spec_new_rank_exact. unfold spec_parents.
  rewrite (Qsum_filter (links_to corpus p)). reflexivity.
Qed.

Lemma out_degree_nonneg (corpus : dict (gset string)) (q : string) :
  (0 <= inject_Z (out_degree corpus q))%Q.
Proof.
  change 0%Q with (inject_Z 0). rewrite <- Zle_Qle. unfold out_degree.
  destruct (dict_get q corpus); lia.
Qed.

Lemma spec_new_rank_diff_bound (corpus : dict (gset string)) (d : Q)
    (x y : dict Q) (p : string) :
  (0 <= d)%Q ->
  (Qabs (spec_new_rank corpus d x p - spec_new_rank corpus d y p) <=
   d * Qsum ((fun q => if links_to corpus p q then
                         Qabs (rank_of x q - rank_of y q) /
                         inject_Z (out_degree corpus q)
                       else 0) <$> dict_keys corpus))%Q.
Proof.
  intros Hd. rewrite !spec_new_rank_indicator.
  set (fx := fun q => if links_to corpus p q then
                        (rank_of x q / inject_Z (out_degree corpus q))%Q
                      else 0%Q).
  set (fy := fun q => if links_to corpus p q then
                        (rank_of y q / inject_Z (out_degree corpus q))%Q
                      else 0%Q).
  set (c := ((1 - d) / inject_Z (Z.of_nat (length corpus)))%Q).
  assert (c + d * Qsum (fx <$> dict_keys corpus) -
          (c + d * Qsum (fy <$> dict_keys corpus)) ==
          d * Qsum ((fun q => fx q - fy q) <$> dict_keys corpus))%Q as ->
    by (rewrite Qsum_minus; ring).
  rewrite Qabs_Qmult, (Qabs_pos d Hd).
  apply Qmult_le_compat_l; [done|].
  eapply Qle_trans; [apply Qabs_Qsum|].
  apply Qsum_fmap_le. intros q _. unfold fx, fy.
  destruct (links_to corpus p q); [|by vm_compute].
  assert (rank_of x q / inject_Z (out_degree corpus q) -
          rank_of y q / inject_Z (out_degree corpus q) ==
          (rank_of x q - rank_of y q) * / inject_Z (out_degree corpus q))%Q
    as -> by (unfold Qdiv; ring).
  rewrite Qabs_Qmult.
  rewrite (Qabs_pos (/ inject_Z (out_degree corpus q))).
  - apply Qle_refl.
  - apply Qinv_le_0_compat, out_degree_nonneg.
Qed.

(** What a page [q] hands out, summed over the pages that receive it, is
    at most what it has: it has [|graph[q]|] links and reaches at most
    that many pages. *)
Lemma column_bound (corpus : dict (gset string)) (q : string) (a : Q) :
  is_dict corpus ->
  q ∈ dict_keys corpus ->
  (0 <= a)%Q ->
  (Qsum ((fun p => if links_to corpus p q then
                     a / inject_Z (out_degree corpus q)
                   else 0) <$> dict_keys corpus) <= a)%Q.
Proof.
  intros Hd Hq Ha. destruct (dict_get_keys _ _ Hq) as [links Hget].
  unfold links_to, out_degree. rewrite Hget.
  rewrite (Qsum_fmap_ext _
             (fun p => (if bool_decide (p ∈ links) then
                          a / inject_Z (Z.of_nat (size links))
                        else 0) + 0)%Q)
    by (intros; ring).
  rewrite (Qsum_bonus (fun p => bool_decide (p ∈ links))).
  pose proof (length_filter_links_le (dict_keys corpus) links Hd) as Hcnt.
  set (cnt := length (filter _ (dict_keys corpus))) in *.
  destruct (decide (size links = 0%nat)) as [Hz|Hnz].
  - assert (cnt = 0%nat) as -> by lia.
    change (inject_Z (Z.of_nat 0)) with 0%Q.
    set (t := (a / _)%Q). set (n := inject_Z _). lra.
  - assert (0 < inject_Z (Z.of_nat (size links)))%Q as Hpos
      by (apply inject_Z_pos; lia).
    assert (inject_Z (Z.of_nat cnt) <= inject_Z (Z.of_nat (size links)))%Q
      as Hle by (rewrite <- Zle_Qle; lia).
    assert (inject_Z (Z.of_nat cnt) * (a / inject_Z (Z.of_nat (size links)))
            == (inject_Z (Z.of_nat cnt) * a) / inject_Z (Z.of_nat (size links)))%Q
      as -> by (unfold Qdiv; ring).
    assert ((inject_Z (Z.of_nat cnt) * a) / inject_Z (Z.of_nat (size links))
            <= a)%Q; [|lra].
    apply Qle_shift_div_r; [done|].
    rewrite (Qmult_comm a). by apply Qmult_le_compat_r.
Qed.

(** One iteration brings two dicts of ranks closer by the factor
    [damping]. *)
Lemma l1_contraction (corpus : dict (gset string)) (d : Q) (x y : dict Q) :
  is_dict corpus ->
  (0 <= d)%Q ->
  dict_keys x = dict_keys corpus ->
  dict_keys y = dict_keys corpus ->
  (l1_dist (dict_keys corpus) (spec_sweep corpus d x) (spec_sweep corpus d y)
   <= d * l1_dist (dict_keys corpus) x y)%Q.
Proof.
  intros Hd Hd0 Hx Hy. unfold l1_dist, spec_sweep. rewrite Hx, Hy.
  set (ks := dict_keys corpus).
  set (a := fun q => Qabs (rank_of x q - rank_of y q)).
  eapply Qle_trans.
  { apply (Qsum_fmap_le _
             (fun p => d * Qsum ((fun q => if links_to corpus p q then
                                   a q / inject_Z (out_degree corpus q)
                                 else 0) <$> ks))%Q).
    intros p Hp. rewrite !rank_of_tabulate by done.
    by apply spec_new_rank_diff_bound. }
  rewrite Qsum_scale_l. apply Qmult_le_compat_l; [done|].
  rewrite (Qsum_swap (fun p q => if links_to corpus p q then
                                   a q / inject_Z (out_degree corpus q)
                                 else 0)%Q).
  apply Qsum_fmap_le. intros q Hq.
  apply column_bound; [done | done | apply Qabs_nonneg].
Qed.

(** ** The running maximum *)

Lemma running_max_exact (c v : Q) :
  running_max c v = if Qle_bool v c then c else v.
Proof. unfold running_max. simpl. by destruct (Qle_bool v c). Qed.

Lemma running_max_ge_l (c v : Q) : (c <= running_max c v)%Q.
Proof.
  rewrite running_max_exact. destruct (Qle_bool v c) eqn:H; [apply Qle_refl|].
  apply Qlt_le_weak, Qnot_le_lt. intros Hle. apply Qle_bool_iff in Hle.
  congruence.
Qed.





Lemma fold_running_max_le_sum (l : list Q) (a : Q) :
  (0 <= a)%Q -> (forall v, v ∈ l -> (0 <= v)%Q) ->
  (fold_left running_max l a <= a + Qsum l)%Q.
Proof.
  revert a. induction l as [|v l IH]; intros a Ha Hl.
  - simpl. unfold Qsum. simpl. lra.
  - cbn [fold_left]. rewrite Qsum_cons.
    assert (0 <= v)%Q as Hv by (apply Hl, elem_of_cons; by left).
    assert (running_max a v <= a + v)%Q as Hm.
    { rewrite running_max_exact. destruct (Qle_bool v a); lra. }
    assert (0 <= running_max a v)%Q as Hm0.
    { eapply Qle_trans; [exact Ha | apply running_max_ge_l]. }
    specialize (IH (running_max a v) Hm0
                  (fun v' Hv' => Hl v' (proj2 (elem_of_cons _ _ _) (or_intror Hv')))).
    lra.
Qed.

(** The change of one page in an iteration. *)
Lemma page_change_exact (corpus : dict (gset string)) (d : Q) (x : dict Q)
    (p : string) :
  (fabs (fsub (spec_new_rank corpus d x p) (rank_of x p)) ==
   Qabs (spec_new_rank corpus d x p - rank_of x p))%Q.
Proof. by rewrite fabs_exact, fsub_exact. Qed.



(** It is at most the L1 distance between the old and the new ranks. *)
Lemma spec_max_change_le_l1 (corpus : dict (gset string)) (d : Q)
    (x : dict Q) :
  (spec_max_change corpus d x <=
   l1_dist (dict_keys x) (spec_sweep corpus d x) x)%Q.
Proof.
  unfold spec_max_change, l1_dist.
  eapply Qle_trans.
  { apply fold_running_max_le_sum; [by vm_compute|].
    intros v (p & -> & Hp)%list_elem_of_fmap.
    rewrite page_change_exact. apply Qabs_nonneg. }
  change (of_int 0) with 0%Q. rewrite Qplus_0_l.
  rewrite (Qsum_fmap_ext _
             (fun p => Qabs (rank_of (spec_sweep corpus d x) p - rank_of x p))).
  - apply Qle_refl.
  - intros p Hp. rewrite page_change_exact.
    unfold spec_sweep. by rewrite rank_of_tabulate.
Qed.

(** ** The changes shrink geometrically *)

Lemma l1_dist_nonneg (ks : list string) (x y : dict Q) :
  (0 <= l1_dist ks x y)%Q.
Proof. apply Qsum_fmap_nonneg. intros; apply Qabs_nonneg. Qed.

Lemma geom_nonneg (d c : Q) (k : nat) :
  (0 <= d)%Q -> (0 <= c)%Q -> (0 <= geom d c k)%Q.
Proof.
  intros Hd Hc. induction k as [|k IH]; [done|].
  simpl. by apply Qmult_le_0_compat.
Qed.

(** The distance between the ranks of two iterations in a row. *)
Lemma l1_decay (corpus : dict (gset string)) (d : Q) (k : nat) :
  is_dict corpus ->
  (0 <= d)%Q ->
  (l1_dist (dict_keys corpus) (spec_ranks corpus d (S k)) (spec_ranks corpus d k)
   <= geom d (l1_dist (dict_keys corpus) (spec_ranks corpus d 1)
                (spec_ranks corpus d 0)) k)%Q.
Proof.
  intros Hd Hd0. induction k as [|k IH]; [apply Qle_refl|].
  cbn [geom]. eapply Qle_trans; [|apply Qmult_le_compat_l; [done | exact IH]].
  change (spec_ranks corpus d (S (S k)))
    with (spec_sweep corpus d (spec_ranks corpus d (S k))).
  change (spec_ranks corpus d (S k))
    with (spec_sweep corpus d (spec_ranks corpus d k)) at 2.
  apply l1_contraction; [done | done | |]; apply dict_keys_spec_ranks.
Qed.

Lemma spec_change_le_geom (corpus : dict (gset string)) (d : Q) (k : nat) :
  is_dict corpus ->
  (0 <= d)%Q ->
  (spec_change corpus d k <=
   geom d (l1_dist (dict_keys corpus) (spec_ranks corpus d 1)
             (spec_ranks corpus d 0)) k)%Q.
Proof.
  intros Hd Hd0. unfold spec_change.
  eapply Qle_trans; [apply spec_max_change_le_l1|].
  rewrite dict_keys_spec_ranks. by apply l1_decay.
Qed.

(** Bernoulli's inequality, in the form that needs no division. *)
Lemma geom_bernoulli (d c : Q) (k : nat) :
  (0 <= d)%Q -> (d <= 1)%Q -> (0 <= c)%Q ->
  (geom d c k * (1 + inject_Z (Z.of_nat k) * (1 - d)) <= c)%Q.
Proof.
  intros Hd0 Hd1 Hc. induction k as [|k IH].
  - cbn [geom]. change (inject_Z (Z.of_nat 0)) with 0%Q. lra.
  - cbn [geom]. rewrite Nat2Z.inj_succ. unfold Z.succ. rewrite inject_Z_plus.
    change (inject_Z 1) with 1%Q.
    pose proof (geom_nonneg d c k Hd0 Hc) as Hg.
    set (g := geom d c k) in *. set (n := inject_Z (Z.of_nat k)) in *.
    assert (0 <= n)%Q as Hn.
    { unfold n. change 0%Q with (inject_Z 0). rewrite <- Zle_Qle. lia. }
    assert (d * g * (1 + (n + 1) * (1 - d)) <= g * (1 + n * (1 - d)))%Q;
      [|lra].
    assert (g * (1 + n * (1 - d)) - d * g * (1 + (n + 1) * (1 - d)) ==
            g * ((1 - d) * ((1 - d) + n * (1 - d))))%Q as Heq by ring.
    assert (0 <= g * ((1 - d) * ((1 - d) + n * (1 - d))))%Q; [|lra].
    apply Qmult_le_0_compat; [done|].
    apply Qmult_le_0_compat; [lra|].
    assert (0 <= n * (1 - d))%Q by (apply Qmult_le_0_compat; lra). lra.
Qed.

Lemma Q_archimedean (q : Q) : exists n : nat, (q < inject_Z (Z.of_nat n))%Q.
Proof.
  exists (Z.to_nat (Z.max 0 (Qfloor q + 1))).
  eapply Qlt_le_trans; [apply Qlt_floor|].
  rewrite <- Zle_Qle. lia.
Qed.

(** With a damping factor below [1] the bound falls under every positive
    threshold. *)
Lemma geom_small (d c eps : Q) :
  (0 <= d)%Q -> (d < 1)%Q -> (0 <= c)%Q -> (0 < eps)%Q ->
  exists k, (geom d c k < eps)%Q.
Proof.
  intros Hd0 Hd1 Hc Heps.
  destruct (Q_archimedean (c / (eps * (1 - d)))) as [k Hk].
  exists k.
  pose proof (geom_bernoulli d c k Hd0 ltac:(lra) Hc) as Hb.
  pose proof (geom_nonneg d c k Hd0 Hc) as Hg.
  set (g := geom d c k) in *. set (n := inject_Z (Z.of_nat k)) in *.
  assert (0 < eps * (1 - d))%Q as Hpos by (apply Qmult_lt_0_compat; lra).
  assert (c < n * (eps * (1 - d)))%Q as Hc'.
  { assert (c == c / (eps * (1 - d)) * (eps * (1 - d)))%Q as Hcq
      by (field; lra).
    rewrite Hcq at 1. by apply Qmult_lt_compat_r. }
  destruct (Qlt_le_dec g eps) as [Hlt|Hge]; [done|].
  exfalso.
  assert (eps * (1 + n * (1 - d)) <= g * (1 + n * (1 - d)))%Q as Hm.
  { apply Qmult_le_compat_r; [done|].
    assert (0 <= n)%Q.
    { unfold n. change 0%Q with (inject_Z 0). rewrite <- Zle_Qle. lia. }
    assert (0 <= n * (1 - d))%Q by (apply Qmult_le_0_compat; lra). lra. }
  assert (eps * (1 + n * (1 - d)) == eps + n * (eps * (1 - d)))%Q as Heq
    by ring.
  lra.
Qed.

(** The first index at which a test fails. *)
Lemma first_false (P : nat -> bool) (n : nat) :
  P n = false ->
  exists j, (j <= n)%nat /\ P j = false /\
            forall i, (i < j)%nat -> P i = true.
Proof.
  revert P. induction n as [|n IH]; intros P Hn.
  - exists 0%nat. repeat split; [done | done | lia].
  - destruct (P 0%nat) eqn:H0.
    + destruct (IH (fun i => P (S i)) Hn) as (j & Hj & Hf & Hb).
      exists (S j). split; [lia|]. split; [done|].
      intros [|i] Hi; [done|]. apply Hb. lia.
    + exists 0%nat. repeat split; [lia | done | lia].
Qed.

Lemma fge_threshold_false (c : Q) :
  fge c lit_0_001 = false <-> (c < 1 # 1000)%Q.
Proof.
  simpl. split.
  - intros H. apply Qnot_le_lt. intros Hle. apply Qle_bool_iff in Hle.
    congruence.
  - intros H. destruct (Qle_bool (1 # 1000) c) eqn:Hb; [|done].
    apply Qle_bool_iff in Hb. lra.
Qed.

Lemma fge_threshold_true (c : Q) :
  fge c lit_0_001 = true <-> (1 # 1000 <= c)%Q.
Proof. simpl. apply Qle_bool_iff. Qed.

(** Some iteration measures a maximum change below the threshold; the
    first such iteration is where the loop stops. *)
Lemma first_stop (corpus : dict (gset string)) (d : Q) :
  is_dict corpus ->
  (0 <= d)%Q -> (d < 1)%Q ->
  exists j,
    (spec_change corpus d j < 1 # 1000)%Q /\
    forall i, (i < j)%nat -> (1 # 1000 <= spec_change corpus d i)%Q.
Proof.
  intros Hd Hd0 Hd1.
  destruct (geom_small d
              (l1_dist (dict_keys corpus) (spec_ranks corpus d 1)
                 (spec_ranks corpus d 0)) (1 # 1000) Hd0 Hd1
              (l1_dist_nonneg _ _ _) ltac:(done)) as [k Hk].
  assert (fge (spec_change corpus d k) lit_0_001 = false) as Hstop.
  { apply fge_threshold_false.
    eapply Qle_lt_trans; [by apply spec_change_le_geom | done]. }
  destruct (first_false (fun i => fge (spec_change corpus d i) lit_0_001)
              k Hstop) as (j & _ & Hj & Hbefore).
  exists j. split; [by apply fge_threshold_false|].
  intros i Hi. apply fge_threshold_true. by apply Hbefore.
Qed.

(** * The program on exact arithmetic *)

Section Exact.
Context {R : Type} `{!Random R Q} `{!RandomLaws R}.
Implicit Types (corpus : dict (gset string)) (w : world R Q).

Lemma range_pos (n : Z) :
  1 <= n -> range n = 0 :: (Z.of_nat <$> seq 1 (Z.to_nat n - 1)).
Proof.
  intros Hn. unfold range.
  destruct (Z.to_nat n) as [|m] eqn:Hm; [lia|].
  simpl. by rewrite Nat.sub_0_r.
Qed.

(** C8, as the program has it.  A page that is not a key makes
    [transition_model] raise [KeyError] for that page at the lookup of
    line 67, before any division; this is the case of every page when the
    graph is empty.  On the empty graph [sample_pagerank] with [n >= 1]
    raises [IndexError], from [random.choice] on the empty list of pages,
    and [iterate_pagerank] raises nothing: it returns the empty dict after
    one pass of its loop. *)
Theorem missing_page_and_empty_graph :
  (forall corpus page damping_factor w,
     dict_get page corpus = None ->
     transition_model corpus page damping_factor w =
       (Raise (KeyError page), w)) /\
  (forall damping_factor n w,
     1 <= n ->
     (sample_pagerank [] damping_factor n w).1 = Raise IndexError) /\
  (forall damping_factor fuel w,
     iterate_pagerank (S fuel) [] damping_factor w =
       (Ok [],
        World (rng w)
          (stdout w ++ [StableAfter 2; SumOfIterate (of_int 0)]))).
Proof.
  split; [|split].
  - intros corpus page d w Hget.
    unfold transition_model, bind. by rewrite (subscript_None _ _ _ Hget).
  - intros d n w Hn.
    unfold sample_pagerank, sample_counts. rewrite (range_pos n Hn).
    simpl. unfold bind, py_random_choice, ret. simpl.
    pose proof (random_choice_empty (rng w)) as He.
    destruct (random_choice [] (rng w)) as [o r]. simpl in He. by subst o.
  - intros d fuel w. unfold iterate_pagerank. simpl.
    unfold bind, ret. simpl. destruct fuel; simpl; unfold print; simpl;
      by rewrite <- app_assoc.
Qed.

(** ** The loop of [iterate_pagerank] *)

(** The loop, started as [iterate_pagerank] starts it, stops after the
    first iteration that measures a change below [0.001]. *)
Lemma iterate_loop_terminates corpus (d : Q) :
  is_dict corpus ->
  (0 <= d)%Q -> (d < 1)%Q ->
  exists j : nat,
    (spec_change corpus d j < 1 # 1000)%Q /\
    (forall i, (i < j)%nat -> (1 # 1000 <= spec_change corpus d i)%Q) /\
    forall fuel w, (j < fuel)%nat ->
      iterate_loop fuel corpus d (spec_init corpus, of_int 1, 1) w =
        (Ok (spec_ranks corpus d (j + 1), spec_change corpus d j,
             Z.of_nat j + 2), w).
Proof.
  intros Hd Hd0 Hd1.
  destruct (first_stop corpus d Hd Hd0 Hd1) as (j & Hj & Hbefore).
  exists j. split; [done|]. split; [done|].
  intros fuel w Hfuel.
  change (spec_init corpus) with (spec_ranks corpus d 0).
  rewrite (iterate_loop_stops corpus d j 0 fuel (of_int 1) 1 w Hd);
    [ do 3 f_equal; lia | done | | | done ].
  - intros i Hi. apply fge_threshold_true. by apply Hbefore.
  - by apply fge_threshold_false.
Qed.

(** Every rank of every iteration is positive. *)
Lemma spec_ranks_pos (corpus : dict (gset string)) (d : Q) (k : nat)
    (p : string) :
  (0 < d)%Q -> (d < 1)%Q ->
  p ∈ dict_keys corpus ->
  (0 < rank_of (spec_ranks corpus d k) p)%Q.
Proof.
  intros Hd0 Hd1. revert p. induction k as [|k IH]; intros p Hp.
  - cbn [spec_ranks]. unfold spec_init. rewrite rank_of_tabulate by done.
    rewrite fdiv_exact. apply Qdiv_pos; [done|].
    apply inject_Z_pos. destruct corpus; [by apply elem_of_nil in Hp|].
    simpl. lia.
  - cbn [spec_ranks]. unfold spec_sweep.
    rewrite rank_of_tabulate by (by rewrite dict_keys_spec_ranks).
    rewrite spec_new_rank_exact.
    assert (0 < (1 - d) / inject_Z (Z.of_nat (length corpus)))%Q.
    { apply Qdiv_pos; [lra|]. apply inject_Z_pos.
      destruct corpus; [by apply elem_of_nil in Hp | simpl; lia]. }
    assert (0 <= Qsum ((fun q => rank_of (spec_ranks corpus d k) q /
                                 inject_Z (out_degree corpus q))
                       <$> spec_parents corpus p))%Q as Hsum.
    { apply Qsum_fmap_nonneg. intros q Hq. apply Qlt_le_weak, Qdiv_pos.
      - apply IH. apply spec_parents_elem in Hq as (links & Hget & _).
        by eapply dict_get_Some_keys.
      - apply inject_Z_pos. by eapply spec_parents_out_degree. }
    assert (0 <= d * Qsum ((fun q => rank_of (spec_ranks corpus d k) q /
                                     inject_Z (out_degree corpus q))
                           <$> spec_parents corpus p))%Q
      by (apply Qmult_le_0_compat; lra).
    lra.
Qed.

(** The sum of the ranks of an iteration is positive on a graph with a
    page. *)
Lemma spec_ranks_total_pos corpus (d : Q) (k : nat) :
  corpus ≠ [] ->
  (0 < d)%Q -> (d < 1)%Q ->
  (0 < py_sum (dict_values (spec_ranks corpus d k)))%Q.
Proof.
  intros Hne Hd0 Hd1. rewrite py_sum_exact.
  pose proof (dict_keys_spec_ranks corpus d k) as Hkeys.
  assert (dict_values (spec_ranks corpus d k) =
          rank_of (spec_ranks corpus d k) <$> dict_keys corpus) as ->.
  { destruct k as [|k]; cbn [spec_ranks] in *.
    - unfold spec_init. rewrite dict_values_tabulate.
      apply list_fmap_ext. intros i p Hp.
      rewrite rank_of_tabulate; [done|]. by eapply list_elem_of_lookup_2.
    - unfold spec_sweep in *. rewrite dict_values_tabulate.
      rewrite dict_keys_tabulate in Hkeys. rewrite Hkeys.
      apply list_fmap_ext. intros i p Hp.
      rewrite rank_of_tabulate; [done|]. by eapply list_elem_of_lookup_2. }
  apply Qsum_fmap_pos; [by destruct corpus|].
  intros p Hp. by apply spec_ranks_pos.
Qed.

(** Dividing every value by their sum gives values that sum to [1]. *)
Lemma normalized_sum (final : dict Q) :
  ~ (py_sum (dict_values final) == 0)%Q ->
  (py_sum (dict_values
             ((fun kv : string * Q =>
                 (kv.1, fdiv kv.2 (py_sum (dict_values final)))) <$> final))
   == 1)%Q.
Proof.
  intros Hnz. rewrite py_sum_exact. unfold dict_values at 1.
  rewrite <- list_fmap_compose.
  rewrite (Qsum_fmap_ext _
             (fun kv => kv.2 * / py_sum (dict_values final))%Q)
    by (intros; apply fdiv_exact).
  rewrite Qsum_scale. fold (dict_values final).
  rewrite <- py_sum_exact. by field.
Qed.



(** C4.  On a non-empty graph with a damping factor in (0, 1),
    [iterate_pagerank] returns, given enough fuel, the ranks with which
    the loop stops, every value divided by the sum of all values; the sum
    is positive, and the returned values sum to [1]. *)
Theorem iterate_pagerank_normalized corpus (damping_factor : Q) w :
  is_dict corpus ->
  corpus ≠ [] ->
  (0 < damping_factor)%Q -> (damping_factor < 1)%Q ->
  exists (j : nat) (final : dict Q),
    final = spec_ranks corpus damping_factor (j + 1) /\
    (0 < py_sum (dict_values final))%Q /\
    forall fuel, (j < fuel)%nat ->
      iterate_loop fuel corpus damping_factor (spec_init corpus, of_int 1, 1) w
      = (Ok (final, spec_change corpus damping_factor j, Z.of_nat j + 2), w) /\
      let result :=
        (fun kv : string * Q =>
           (kv.1, fdiv kv.2 (py_sum (dict_values final)))) <$> final in
      iterate_pagerank fuel corpus damping_factor w =
        (Ok result,
         World (rng w)
           (stdout w ++
            [StableAfter (Z.of_nat j + 2);
             SumOfIterate (py_sum (dict_values result))])) /\
      (py_sum (dict_values result) == 1)%Q.
Proof.
  intros Hd Hne Hd0 Hd1.
  destruct (iterate_loop_terminates corpus damping_factor Hd
              ltac:(lra) Hd1) as (j & Hj & Hbefore & Hrun).
  exists j, (spec_ranks corpus damping_factor (j + 1)).
  pose proof (spec_ranks_total_pos corpus damping_factor (j + 1) Hne Hd0 Hd1)
    as Hpos.
  split; [done|]. split; [done|].
  intros fuel Hfuel. split; [by apply Hrun|].
  assert (~ (py_sum (dict_values (spec_ranks corpus damping_factor (j + 1)))
             == 0)%Q) as Hnz by lra.
  split.
  - apply (iterate_pagerank_finish corpus damping_factor fuel _ _ _ w Hd
             (Hrun fuel w Hfuel)).
    simpl. destruct (Qeq_bool _ 0) eqn:Hz; [|done].
    by apply Qeq_bool_eq in Hz.
  - by apply normalized_sum.
Qed.

(** ** The walk of [sample_pagerank] *)

Lemma py_random_choice_elem (seq : list string) w :
  seq ≠ [] ->
  exists s w1, py_random_choice seq w = (Ok s, w1) /\ s ∈ seq.
Proof.
  intros Hne. unfold py_random_choice.
  destruct (random_choice_elem seq (rng w) Hne) as (s & Hs & Hin).
  destruct (random_choice seq (rng w)) as [o r]. simpl in Hs. subst o.
  by eexists _, _.
Qed.

(** A draw from the distribution of a page yields a page of the graph. *)
Lemma draw_weighted_elem corpus page links (d : Q) w :
  is_dict corpus ->
  dict_get page corpus = Some links ->
  (0 < d)%Q -> (d < 1)%Q ->
  exists s w1,
    draw_weighted (transition_dist corpus links d) w = (Ok s, w1) /\
    s ∈ dict_keys corpus.
Proof.
  intros Hd Hget Hd0 Hd1. unfold draw_weighted, bind, py_random_choices.
  unfold transition_dist. rewrite dict_keys_tabulate, dict_values_tabulate.
  destruct (random_choices_elem (dict_keys corpus)
              (transition_value corpus links d <$> dict_keys corpus) (rng w))
    as (s & Hs & Hin).
  - intros Hnil. apply dict_get_Some_keys in Hget. rewrite Hnil in Hget.
    by apply elem_of_nil in Hget.
  - by rewrite length_fmap.
  - apply Forall_fmap, Forall_forall. intros p _.
    by eapply transition_value_pos.
  - destruct (random_choices _ _ _) as [o r]. simpl in Hs. subst o.
    by eexists _, _.
Qed.

(** The walk of the specification never fails and stays in the graph. *)
Lemma spec_walk_total corpus (d : Q) (k : nat) current w :
  is_dict corpus ->
  current ∈ dict_keys corpus ->
  (0 < d)%Q -> (d < 1)%Q ->
  exists samples w1,
    spec_walk k corpus d current w = (Ok samples, w1) /\
    length samples = k /\
    Forall (fun s => s ∈ dict_keys corpus) samples.
Proof.
  intros Hd Hcur Hd0 Hd1. revert current w Hcur.
  induction k as [|k IH]; intros current w Hcur.
  - exists [], w. by repeat split.
  - destruct (dict_get_keys _ _ Hcur) as [links Hget].
    cbn [spec_walk]. unfold bind.
    rewrite (transition_model_run _ _ _ _ _ Hd Hget).
    destruct (draw_weighted_elem corpus current links d
                (after_sum_check (transition_dist corpus links d) w)
                Hd Hget Hd0 Hd1) as (s & w1 & -> & Hs).
    destruct (IH s w1 Hs) as (rest & w2 & -> & Hlen & Hall).
    exists (s :: rest), w2. split; [done|]. split; [simpl; lia|].
    by constructor.
Qed.

(** C5.  For a non-empty graph, a damping factor in (0, 1) and [n >= 1],
    [sample_pagerank] draws the [n] samples of the specification: the
    first one by [random.choice] among all pages, each later one by
    [random.choices] with the pages as population and, as weights, the
    distribution of [transition_model] on the sample before it.  It
    returns, for every page, the number of samples equal to this page
    divided by [n]; these values sum to [1], so the check passes and the
    line with the sum is printed. *)
Theorem sample_pagerank_counts_walk corpus (damping_factor : Q) (n : Z) w :
  is_dict corpus ->
  corpus ≠ [] ->
  (0 < damping_factor)%Q -> (damping_factor < 1)%Q ->
  1 <= n ->
  exists samples w1,
    spec_samples corpus damping_factor (Z.to_nat n) w = (Ok samples, w1) /\
    Z.of_nat (length samples) = n /\
    Forall (fun s => s ∈ dict_keys corpus) samples /\
    sample_pagerank corpus damping_factor n w =
      (Ok (spec_sample_rank corpus n samples),
       World (rng w1)
         (stdout w1 ++
          [SumOfSample
             (py_sum (dict_values (spec_sample_rank corpus n samples)))])) /\
    (py_sum (dict_values (spec_sample_rank corpus n samples)) == 1)%Q.
Proof.
  intros Hd Hne Hd0 Hd1 Hn.
  assert (dict_keys corpus ≠ []) as Hkeys by (by destruct corpus).
  destruct (py_random_choice_elem (dict_keys corpus) w Hkeys)
    as (s & wa & Hfirst & Hs).
  destruct (Z.to_nat n) as [|k] eqn:Hk; [lia|].
  destruct (spec_walk_total corpus damping_factor k s wa Hd Hs Hd0 Hd1)
    as (rest & w1 & Hwalk & Hlen & Hall).
  exists (s :: rest), w1.
  assert (Z.of_nat (length (s :: rest)) = n) as Hlength by (simpl; lia).
  assert (Forall (fun s => s ∈ dict_keys corpus) (s :: rest)) as Hall'
    by (by constructor).
  pose proof (spec_sample_rank_sum corpus n (s :: rest) Hd Hall' Hlength
                ltac:(lia)) as Hsum.
  split; [|split; [done|split; [done|split; [|done]]]].
  - cbn [spec_samples]. unfold bind. by rewrite Hfirst, Hwalk.
  - unfold sample_pagerank. unfold bind at 1.
    assert (sample_counts corpus damping_factor n w =
            (Ok (spec_sample_rank corpus n (s :: rest)), w1)) as ->.
    { unfold sample_counts. unfold bind at 1.
      rewrite (for_each_tabulate _ (fun _ => 0) _ [] w Hd);
        [|intros; apply not_elem_of_nil|done].
      rewrite app_nil_l, (range_pos n Hn), Hk.
      replace (S k - 1)%nat with k by lia.
      cbn [for_each]. unfold bind at 1. unfold bind at 1.
      rewrite (sample_step_None _ _ _ _ w s wa Hd Hfirst Hs).
      assert (length (Z.of_nat <$> seq 1 k) = k) as Hidx
        by (by rewrite length_fmap, length_seq).
      rewrite <- Hidx in Hwalk.
      destruct (sample_loop_walk corpus damping_factor _ s
                  (fun p => 0 + count_visits p [s]) wa rest w1
                  Hd Hs Hwalk Hall) as [final ->].
      cbn [snd].
      rewrite map_M_truediv_tabulate by lia.
      unfold spec_sample_rank. do 2 f_equal. apply tabulate_ext.
      intros p _. do 2 f_equal.
      rewrite (count_visits_cons p s rest), (count_visits_cons p s []).
      unfold count_visits at 1. simpl. lia. }
    rewrite (sum_check_passes _ Hsum). unfold bind, print, ret. done.
Qed.

(** C6.  For a page of the graph whose links all lead to pages of the
    graph (the invariant of a link graph), the values of the dict that
    [transition_model] returns sum to [1]: the difference to [1] is within
    [1e-5], the check of the rounded sum passes and nothing is printed.
    In exact arithmetic this holds for every damping factor. *)
Theorem transition_model_sums_to_one corpus page links (damping_factor : Q) w :
  is_dict corpus ->
  dict_get page corpus = Some links ->
  (forall p, p ∈ links -> p ∈ dict_keys corpus) ->
  exists dist,
    transition_model corpus page damping_factor w = (Ok dist, w) /\
    (py_sum (dict_values dist) == 1)%Q /\
    (Qabs (py_sum (dict_values dist) - 1) <= 1 # 100000)%Q.
Proof.
  intros Hd Hget Hsub.
  pose proof (transition_dist_sum corpus page links damping_factor
                Hd Hget Hsub) as Hsum.
  exists (transition_dist corpus links damping_factor).
  rewrite (transition_model_run _ _ _ _ _ Hd Hget).
  unfold after_sum_check. rewrite (sum_check_passes _ Hsum).
  split; [done|]. split; [done|].
  rewrite Hsum. vm_compute. discriminate.
Qed.

End Exact.

Lemma transition_model_sums_to_one_witness :
  exists dist,
    run (transition_model hub "A" (85 # 100)%Q) = (Ok dist, w0) /\
    (py_sum (dict_values dist) == 1)%Q /\
    (Qabs (py_sum (dict_values dist) - 1) <= 1 # 100000)%Q.
Proof.
  refine (transition_model_sums_to_one hub "A" {["B"; "C"]} (85 # 100)%Q w0
            _ _ _).
  - unfold is_dict. decide_closed.
  - reflexivity.
  - intros p Hp. apply (bool_decide_unpack _).
    apply elem_of_union in Hp as [Hp | Hp];
      apply elem_of_singleton in Hp; subst p; vm_compute; exact I.
Defined.

(** C8, as stated, fails: on the empty graph [iterate_pagerank] returns a
    dict and raises nothing. *)
Lemma iterate_pagerank_empty_graph_returns :
  run (iterate_pagerank 1 [] (85 # 100)%Q) =
    (Ok [], World (rng w0) [StableAfter 2; SumOfIterate 0%Q]).
Proof. vm_compute. reflexivity. Qed.

Lemma missing_page_and_empty_graph_witness :
  run (transition_model [] "A" (85 # 100)%Q) = (Raise (KeyError "A"), w0) /\
  (run (sample_pagerank [] (85 # 100)%Q 1)).1 = Raise IndexError /\
  run (iterate_pagerank 1 [] (85 # 100)%Q) =
    (Ok [], World (rng w0) [StableAfter 2; SumOfIterate 0%Q]).
Proof.
  destruct (missing_page_and_empty_graph (R:=list Q)) as (Ha & Hb & Hc).
  split; [|split].
  - apply Ha. reflexivity.
  - apply Hb. lia.
  - apply Hc.
Defined.

Lemma sample_pagerank_counts_walk_witness :
  exists samples w1,
    run (spec_samples hub (85 # 100)%Q (Z.to_nat 4)) = (Ok samples, w1) /\
    Z.of_nat (length samples) = 4 /\
    Forall (fun s => s ∈ dict_keys hub) samples /\
    run (sample_pagerank hub (85 # 100)%Q 4) =
      (Ok (spec_sample_rank hub 4 samples),
       World (rng w1)
         (stdout w1 ++
          [SumOfSample (py_sum (dict_values (spec_sample_rank hub 4 samples)))]))
    /\
    (py_sum (dict_values (spec_sample_rank hub 4 samples)) == 1)%Q.
Proof.
  refine (sample_pagerank_counts_walk hub (85 # 100)%Q 4 w0 _ _ _ _ _).
  - unfold is_dict. decide_closed.
  - discriminate.
  - reflexivity.
  - reflexivity.
  - lia.
Defined.

(** The run behind the witness: the samples are B, A, B, B. *)
Example sample_pagerank_hub_run :
  run (spec_samples hub (85 # 100)%Q 4) = (Ok ["B"; "A"; "B"; "B"], World [] [])
  /\
  run (sample_pagerank hub (85 # 100)%Q 4) =
    (Ok [("A", (1 # 4)%Q); ("B", (3 # 4)%Q); ("C", 0%Q)],
     World [] [SumOfSample 1%Q]).
Proof. split; vm_compute; reflexivity. Qed.



Lemma iterate_pagerank_normalized_witness :
  exists (j : nat) (final : dict Q),
    final = spec_ranks dangling_pair (85 # 100)%Q (j + 1) /\
    (0 < py_sum (dict_values final))%Q /\
    forall fuel, (j < fuel)%nat ->
      iterate_loop fuel dangling_pair (85 # 100)%Q
        (spec_init dangling_pair, of_int 1, 1) w0
      = (Ok (final, spec_change dangling_pair (85 # 100)%Q j,
             Z.of_nat j + 2), w0) /\
      let result :=
        (fun kv : string * Q =>
           (kv.1, fdiv kv.2 (py_sum (dict_values final)))) <$> final in
      run (iterate_pagerank fuel dangling_pair (85 # 100)%Q) =
        (Ok result,
         World (rng w0)
           (stdout w0 ++
            [StableAfter (Z.of_nat j + 2);
             SumOfIterate (py_sum (dict_values result))])) /\
      (py_sum (dict_values result) == 1)%Q.
Proof.
  refine (iterate_pagerank_normalized dangling_pair (85 # 100)%Q w0 _ _ _ _).
  - unfold is_dict. decide_closed.
  - discriminate.
  - reflexivity.
  - reflexivity.
Defined.

(** ** The tests of the specification, run on exact arithmetic *)

(** The symmetric cycle: both pages end at [1/2]. *)
Example iterate_pagerank_two_pages :
  run (iterate_pagerank 2 two_pages (85 # 100)%Q) =
    (Ok [("A", (1 # 2)%Q); ("B", (1 # 2)%Q)],
     World (rng w0) [StableAfter 2; SumOfIterate 1%Q]).
Proof. vm_compute. reflexivity. Qed.

(** A page without links gives nothing to the page it does not link to:
    after three passes [B] holds [(1 - d) / 2] and [A] holds
    [(1 - d) / 2 + d * (1 - d) / 2], before the division by the sum. *)
Example iterate_pagerank_dangling_pair :
  spec_ranks dangling_pair (85 # 100)%Q 3 =
    [("A", (111 # 800)%Q); ("B", (3 # 40)%Q)] /\
  run (iterate_pagerank 3 dangling_pair (85 # 100)%Q) =
    (Ok [("A", (37 # 57)%Q); ("B", (20 # 57)%Q)],
     World (rng w0) [StableAfter 4; SumOfIterate 1%Q]).
Proof. split; vm_compute; reflexivity. Qed.

(** Too little fuel: the loop has not stopped yet. *)
Example iterate_pagerank_out_of_fuel :
  run (iterate_pagerank 2 dangling_pair (85 # 100)%Q) = (OutOfFuel, w0).
Proof. vm_compute. reflexivity. Qed.

(** The hub [A] ranks above [B] and [C], which rank equal. *)
Example iterate_pagerank_hub :
  exists a b w,
    run (iterate_pagerank 36 hub (85 # 100)%Q) =
      (Ok [("A", a); ("B", b); ("C", b)], w) /\
    (b < a)%Q /\
    stdout w = [StableAfter 37; SumOfIterate 1%Q].
Proof.
  eexists _, _, _. split; [vm_compute; reflexivity|].
  split; vm_compute; reflexivity.
Qed.

(** The dangling-node test of the transition model. *)
Example transition_model_dangling_pair :
  run (transition_model dangling_pair "A" (85 # 100)%Q) =
    (Ok [("A", (1 # 2)%Q); ("B", (1 # 2)%Q)], w0).
Proof. vm_compute. reflexivity. Qed.

(** * The crawler *)

Lemma dict_get_middle {V} (done todo : dict V) (k : string) (v : V) :
  k ∉ dict_keys done -> dict_get k (done ++ (k, v) :: todo) = Some v.
Proof.
  induction done as [|[k' v'] done IH]; simpl.
  - intros _. by rewrite decide_True.
  - rewrite not_elem_of_cons. intros [Hne Hnin].
    rewrite decide_False by done. by apply IH.
Qed.

Section CrawlFacts.
Context {R F : Type} `{!Files}.
Implicit Types (w : world R F) (directory : string).

(** Every file named [*.html] can be read. *)
Lemma first_unreadable_None directory (names : list string) :
  first_unreadable directory names = None <->
  forall f, f ∈ names -> endswith f ".html" = true ->
    exists contents, read_file (path_join directory f) = inr contents.
Proof.
  induction names as [|g names IH]; cbn [first_unreadable].
  - split; [|done]. intros _ f Hf. by apply elem_of_nil in Hf.
  - destruct (endswith g ".html") eqn:Hhtml.
    + destruct (read_file (path_join directory g)) as [e|c] eqn:Hread.
      * split; [done|]. intros Hall.
        destruct (Hall g) as [c Hc]; [apply elem_of_cons; by left | done |].
        congruence.
      * rewrite IH. split.
        -- intros Hall f [->|Hf]%elem_of_cons Hf'; [by exists c|].
           by apply Hall.
        -- intros Hall f Hf. apply Hall, elem_of_cons. by right.
    + rewrite IH. split.
      * intros Hall f [->|Hf]%elem_of_cons Hf'; [congruence|].
        by apply Hall.
      * intros Hall f Hf. apply Hall, elem_of_cons. by right.
Qed.

(** The first file named [*.html] that cannot be read comes after files
    that can. *)
Lemma first_unreadable_Some directory (before after : list string)
    (f : string) (e : exn) :
  (forall g, g ∈ before -> endswith g ".html" = true ->
     exists contents, read_file (path_join directory g) = inr contents) ->
  endswith f ".html" = true ->
  read_file (path_join directory f) = inl e ->
  first_unreadable directory (before ++ f :: after) = Some e.
Proof.
  intros Hbefore Hhtml Hread.
  induction before as [|g before IH]; cbn [app first_unreadable].
  - by rewrite Hhtml, Hread.
  - assert (first_unreadable directory (before ++ f :: after) = Some e)
      as Hrest.
    { apply IH. intros g' Hg'. apply Hbefore, elem_of_cons. by right. }
    destruct (endswith g ".html") eqn:Hg; [|done].
    destruct (Hbefore g) as [c Hc]; [apply elem_of_cons; by left | done |].
    by rewrite Hc.
Qed.

(** The first loop: the files whose name ends in [.html], each with the
    links found in it, itself excepted. *)
Lemma crawl_collect directory (listing : list string)
    (pages : dict (gset string)) w :
  NoDup listing ->
  (forall f, f ∈ listing -> f ∉ dict_keys pages) ->
  first_unreadable directory listing = None ->
  for_each listing (fun filename (pages : dict (gset string)) =>
    if negb (endswith filename ".html") then ret pages
    else
      contents <- os_call (read_file (path_join directory filename)) ;;
      let links := findall_href contents in
      ret (dict_set filename
             (list_to_set links ∖ {[filename]} : gset string) pages))
    pages w =
  (Ok (pages ++ tabulate (found_links directory) (html_files listing)), w).
Proof.
  intros Hnd. revert pages.
  induction Hnd as [|f listing Hf Hnd IH]; intros pages Hfresh Hread.
  - cbn [for_each]. unfold ret, tabulate. simpl. by rewrite app_nil_r.
  - cbn [for_each]. unfold bind at 1. unfold html_files.
    rewrite filter_cons. cbn [first_unreadable] in Hread.
    destruct (endswith f ".html") eqn:Hhtml; cbn [negb].
    + rewrite decide_True by done.
      destruct (read_file (path_join directory f)) as [e|c] eqn:Hc;
        [done|].
      unfold bind, os_call, ret at 1 2.
      rewrite dict_set_fresh by (apply Hfresh, elem_of_cons; by left).
      fold (html_files listing) in IH |- *. rewrite IH.
      * change (tabulate ?g (f :: ?ks)) with ((f, g f) :: tabulate g ks).
        unfold found_links at 2, contents_of. rewrite Hc.
        by rewrite <- app_assoc.
      * intros f' Hf'. rewrite dict_keys_app. cbn.
        rewrite elem_of_app, list_elem_of_singleton.
        intros [Hin | ->]; [|done].
        eapply Hfresh; [|exact Hin]. apply elem_of_cons. by right.
      * done.
    + rewrite decide_False by done. unfold ret at 1.
      fold (html_files listing) in IH |- *. apply IH; [|done].
      intros f' Hf'. apply Hfresh, elem_of_cons. by right.
Qed.

(** The first loop ends at the first file that cannot be read. *)
Lemma crawl_collect_raises directory (listing : list string)
    (pages : dict (gset string)) (e : exn) w :
  first_unreadable directory listing = Some e ->
  for_each listing (fun filename (pages : dict (gset string)) =>
    if negb (endswith filename ".html") then ret pages
    else
      contents <- os_call (read_file (path_join directory filename)) ;;
      let links := findall_href contents in
      ret (dict_set filename
             (list_to_set links ∖ {[filename]} : gset string) pages))
    pages w =
  (Raise e, w).
Proof.
  revert pages.
  induction listing as [|f listing IH]; intros pages Hread; [done|].
  cbn [for_each]. unfold bind at 1. cbn [first_unreadable] in Hread.
  destruct (endswith f ".html") eqn:Hhtml; cbn [negb].
  - destruct (read_file (path_join directory f)) as [e'|c] eqn:Hc.
    + injection Hread as ->. done.
    + unfold bind, os_call, ret at 1 2. by apply IH.
  - unfold ret at 1. by apply IH.
Qed.

(** The second loop: every link that is not a key is dropped.  The keys
    do not change while the values are replaced in place. *)
Lemma crawl_restrict (raw : string -> gset string) (ks1 ks2 : list string) w :
  NoDup (ks1 ++ ks2) ->
  let kept := fun f => filter (fun link => link ∈ ks1 ++ ks2) (raw f) in
  for_each ks2 (fun filename (pages : dict (gset string)) =>
    links <- subscript pages filename ;;
    ret (dict_set filename
           (filter (fun link => link ∈ dict_keys pages) links) pages))
    (tabulate kept ks1 ++ tabulate raw ks2) w =
  (Ok (tabulate kept (ks1 ++ ks2)), w).
Proof.
  revert ks1. induction ks2 as [|f ks2 IH]; intros ks1 Hnd kept.
  - cbn [for_each]. unfold ret. by rewrite !app_nil_r.
  - cbn [for_each]. unfold bind.
    change (tabulate raw (f :: ks2)) with ((f, raw f) :: tabulate raw ks2).
    assert (f ∉ dict_keys (tabulate kept ks1)) as Hf.
    { rewrite dict_keys_tabulate. apply NoDup_app in Hnd as (_ & Hdisj & _).
      intros Hin. apply (Hdisj f Hin). apply elem_of_cons. by left. }
    rewrite (subscript_Some _ _ (raw f)) by (by apply dict_get_middle).
    unfold ret at 1. rewrite dict_set_at by done.
    assert (dict_keys (tabulate kept ks1 ++ (f, raw f) :: tabulate raw ks2)
            = ks1 ++ f :: ks2) as ->.
    { rewrite dict_keys_app, dict_keys_tabulate.
      change (dict_keys ((f, raw f) :: tabulate raw ks2))
        with (f :: dict_keys (tabulate raw ks2)).
      by rewrite dict_keys_tabulate. }
    fold (kept f).
    replace (tabulate kept ks1 ++ (f, kept f) :: tabulate raw ks2)
      with (tabulate kept (ks1 ++ [f]) ++ tabulate raw ks2)
      by (by rewrite tabulate_app, <- app_assoc).
    assert (ks1 ++ f :: ks2 = (ks1 ++ [f]) ++ ks2) as Heq
      by (by rewrite <- app_assoc).
    specialize (IH (ks1 ++ [f])). rewrite <- Heq in IH.
    by apply IH.
Qed.

(** [crawl] as a whole. *)
Lemma crawl_run directory (names : list string) w :
  listdir directory = inr names ->
  NoDup names ->
  first_unreadable directory names = None ->
  crawl directory w =
  (Ok (tabulate
         (fun f => filter (fun link => link ∈ html_files names)
                     (found_links directory f))
         (html_files names)), w).
Proof.
  intros Hls Hnd Hread. unfold crawl. rewrite Hls.
  unfold bind at 1. unfold os_call at 1. unfold ret at 1.
  unfold bind at 1.
  pose proof (crawl_collect directory _ [] w Hnd
                (fun f _ => not_elem_of_nil f) Hread) as Hfirst.
  cbn zeta in Hfirst. rewrite Hfirst.
  rewrite app_nil_l.
  cbn beta iota. rewrite dict_keys_tabulate. unfold bind at 1.
  pose proof (crawl_restrict (found_links directory) []
                (html_files names) w) as Hloop.
  rewrite !app_nil_l in Hloop. cbn zeta in Hloop.
  change (tabulate _ [] ++ ?x) with x in Hloop.
  rewrite Hloop; [done|]. by apply NoDup_filter.
Qed.

(** [crawl] raises what the file system raises first. *)
Lemma crawl_raises directory (e : exn) w :
  listdir directory = inl e \/
  (exists names, listdir directory = inr names /\
                 first_unreadable directory names = Some e) ->
  crawl directory w = (Raise e, w).
Proof.
  intros [Hls | (names & Hls & Hread)]; unfold crawl; rewrite Hls.
  - done.
  - unfold bind at 1. unfold os_call at 1. unfold ret at 1.
    unfold bind at 1.
    pose proof (crawl_collect_raises directory names [] e w Hread) as Hfirst.
    cbn zeta in Hfirst. by rewrite Hfirst.
Qed.

(** When [crawl] returns, the directory could be listed and its pages
    read. *)
Lemma crawl_returned directory (pages : dict (gset string)) w :
  (forall names, listdir directory = inr names -> NoDup names) ->
  (crawl directory w).1 = Ok pages ->
  exists names,
    listdir directory = inr names /\
    NoDup names /\
    first_unreadable directory names = None /\
    pages =
      tabulate
        (fun f => filter (fun link => link ∈ html_files names)
                    (found_links directory f))
        (html_files names).
Proof.
  intros Hnd Hrun.
  destruct (listdir directory) as [e|names] eqn:Hls.
  - rewrite (crawl_raises directory e w) in Hrun by (by left). done.
  - destruct (first_unreadable directory names) as [e|] eqn:Hread.
    + rewrite (crawl_raises directory e w) in Hrun
        by (right; by exists names).
      done.
    + exists names. rewrite (crawl_run directory names w Hls (Hnd _ eq_refl)
                               Hread) in Hrun.
      injection Hrun as <-. by split; [|split; [apply Hnd|]].
Qed.

(** The links of the dict of [crawl_run] lead to its keys. *)
Lemma crawl_run_closed directory (names : list string) (page : string)
    (links : gset string) :
  let pages :=
    tabulate
      (fun f => filter (fun link => link ∈ html_files names)
                  (found_links directory f))
      (html_files names) in
  dict_get page pages = Some links ->
  forall link, link ∈ links -> link ∈ dict_keys pages.
Proof.
  intros pages Hget link Hlink.
  assert (page ∈ html_files names) as Hpage.
  { apply dict_get_Some_keys in Hget.
    unfold pages in Hget. by rewrite dict_keys_tabulate in Hget. }
  unfold pages in Hget |- *.
  rewrite dict_get_tabulate in Hget by done. injection Hget as <-.
  rewrite dict_keys_tabulate. by apply elem_of_filter in Hlink as [? _].
Qed.

End CrawlFacts.

(** ** [str.endswith] *)






(** ** What [crawl] returns *)

Section CrawlResults.
Context {R F : Type} `{!Files}.
Implicit Types (w : world R F) (directory : string).


(** X2.  The link set that [crawl] returns for a file holds exactly the
    matches of the pattern in the text of this file that are not the
    file itself and are keys of the returned dict: no page links to
    itself, and every link leads to a page of the dict. *)
Theorem crawl_links directory (names : list string) w pages filename links :
  listdir directory = inr names ->
  NoDup names ->
  (crawl directory w).1 = Ok pages ->
  dict_get filename pages = Some links ->
  exists contents,
    read_file (path_join directory filename) = inr contents /\
    (forall link, link ∈ links <->
       link ∈ findall_href contents /\
       link <> filename /\
       link ∈ dict_keys pages) /\
    (filename ∉ links) /\
    (forall link, link ∈ links -> link ∈ dict_keys pages).
Proof.
  intros Hls Hnd Hrun Hget.
  destruct (crawl_returned directory pages w) as (names' & Hls' & _ & Hread & ->);
    [intros names' Hls'; congruence | done |].
  assert (names' = names) as -> by congruence.
  assert (filename ∈ html_files names) as Hfile.
  { apply dict_get_Some_keys in Hget. by rewrite dict_keys_tabulate in Hget. }
  rewrite dict_get_tabulate in Hget by done. injection Hget as <-.
  rewrite dict_keys_tabulate.
  destruct (proj1 (first_unreadable_None directory names) Hread filename)
    as [contents Hcontents].
  { unfold html_files in Hfile. by apply list_elem_of_filter in Hfile as [_ ?]. }
  { unfold html_files in Hfile. by apply list_elem_of_filter in Hfile as [? _]. }
  exists contents. split; [done|].
  assert (forall link,
            link ∈ filter (fun link => link ∈ html_files names)
                     (found_links directory filename) <->
            link ∈ findall_href contents /\
            link <> filename /\ link ∈ html_files names) as Hiff.
  { intros link. unfold found_links, contents_of. rewrite Hcontents.
    rewrite elem_of_filter, elem_of_difference, elem_of_list_to_set,
      elem_of_singleton. tauto. }
  split; [exact Hiff|]. split.
  - intros Hself. apply Hiff in Hself. tauto.
  - intros link Hlink. apply Hiff in Hlink. tauto.
Qed.

(** X16.  [crawl] raises the exception of the file system: that of
    [os.listdir] when the directory cannot be listed, else that of the
    first listed file named [*.html] that cannot be opened or read; the
    files listed after it are not looked at, and nothing is returned. *)
Theorem crawl_raises_first_error directory (e : exn) w :
  (listdir directory = inl e -> crawl directory w = (Raise e, w)) /\
  (forall before f after,
     listdir directory = inr (before ++ f :: after) ->
     (forall g, g ∈ before -> endswith g ".html" = true ->
        exists contents, read_file (path_join directory g) = inr contents) ->
     endswith f ".html" = true ->
     read_file (path_join directory f) = inl e ->
     crawl directory w = (Raise e, w)).
Proof.
  split.
  - intros Hls. apply crawl_raises. by left.
  - intros before f after Hls Hbefore Hhtml Hread. apply crawl_raises.
    right. exists (before ++ f :: after). split; [done|].
    by apply first_unreadable_Some.
Qed.

End CrawlResults.

(** X3.  On the dict that [crawl] returns, [transition_model] gives for
    every page a dict whose values sum to [1]; the check of the sum
    passes and nothing is printed. *)
Theorem crawl_then_transition_model {R : Type} `{!Random R Q} `{!Files}
    (directory page : string) (names : list string) (damping_factor : Q)
    (w : world R Q) (pages : dict (gset string)) :
  listdir directory = inr names ->
  NoDup names ->
  (crawl directory w).1 = Ok pages ->
  page ∈ dict_keys pages ->
  exists dist,
    transition_model pages page damping_factor w = (Ok dist, w) /\
    dict_keys dist = dict_keys pages /\
    (py_sum (dict_values dist) == 1)%Q.
Proof.
  intros Hls Hnd Hrun Hpage.
  destruct (crawl_returned directory pages w) as (names' & Hls' & _ & _ & ->);
    [intros names' Hls'; congruence | done |].
  assert (names' = names) as -> by congruence.
  assert (is_dict
            (tabulate
               (fun f => filter (fun link => link ∈ html_files names)
                           (found_links directory f))
               (html_files names))) as Hdict.
  { unfold is_dict. rewrite dict_keys_tabulate. by apply NoDup_filter. }
  destruct (dict_get_keys _ _ Hpage) as [links Hget].
  pose proof (crawl_run_closed directory names page links Hget) as Hclosed.
  cbn zeta in Hclosed.
  pose proof (transition_dist_sum _ page links damping_factor
                Hdict Hget Hclosed) as Hsum.
  eexists. rewrite (transition_model_run _ _ _ _ _ Hdict Hget).
  unfold after_sum_check. rewrite (sum_check_passes _ Hsum).
  split; [done|]. split; [|done].
  unfold transition_dist. by rewrite !dict_keys_tabulate.
Qed.

(** * More about [transition_model] *)

Lemma Qsum_fmap_elem_le {A} (f : A -> Q) (l : list A) (x : A) :
  (forall y, y ∈ l -> (0 <= f y)%Q) -> x ∈ l -> (f x <= Qsum (f <$> l))%Q.
Proof.
  induction l as [|y l IH]; intros Hpos Hx.
  - by apply elem_of_nil in Hx.
  - rewrite fmap_cons, Qsum_cons.
    assert (0 <= f y)%Q by (apply Hpos, elem_of_cons; by left).
    assert (0 <= Qsum (f <$> l))%Q.
    { apply Qsum_fmap_nonneg. intros z Hz. apply Hpos, elem_of_cons.
      by right. }
    apply elem_of_cons in Hx as [->|Hx]; [lra|].
    assert (f x <= Qsum (f <$> l))%Q; [|lra].
    apply IH; [|done]. intros z Hz. apply Hpos, elem_of_cons. by right.
Qed.

(** A link to a page outside the graph is a link that reaches no page. *)
Lemma length_filter_links_lt (ks : list string) (links : gset string)
    (link : string) :
  NoDup ks ->
  link ∈ links -> link ∉ ks ->
  (length (filter (fun p => bool_decide (p ∈ links) = true) ks) < size links)%nat.
Proof.
  intros Hnd Hlink Hout.
  rewrite <- (size_list_to_set (C:=gset string)) by (by apply NoDup_filter).
  apply subset_size. apply elem_of_subset. split.
  - intros p. rewrite elem_of_list_to_set, list_elem_of_filter,
      bool_decide_eq_true. by intros [? _].
  - intros Hsub. specialize (Hsub link Hlink).
    rewrite elem_of_list_to_set, list_elem_of_filter in Hsub. tauto.
Qed.

(** The sum of the entries for a page with links: the share [1 - d] that
    is spread over all pages, and of the share [d] the fraction of the
    links that lead to pages of the graph. *)
Lemma transition_dist_mass (corpus : dict (gset string)) (page : string)
    (links : gset string) (d : Q) :
  dict_get page corpus = Some links ->
  size links <> 0%nat ->
  (py_sum (dict_values (transition_dist corpus links d)) ==
   (1 - d) +
   d * (inject_Z (Z.of_nat
          (length (filter (fun p => bool_decide (p ∈ links) = true)
                     (dict_keys corpus)))) /
        inject_Z (Z.of_nat (size links))))%Q.
Proof.
  intros Hget Hsize. rewrite py_sum_exact.
  unfold transition_dist. rewrite dict_values_tabulate.
  assert (~ (inject_Z (Z.of_nat (length corpus)) == 0)%Q) as Hn.
  { apply inject_Z_nonzero. destruct corpus; [done | simpl; lia]. }
  assert (~ (inject_Z (Z.of_nat (size links)) == 0)%Q) as Hl
    by (apply inject_Z_nonzero; lia).
  rewrite (Qsum_fmap_ext _ _ _
             (fun p _ => transition_value_exact corpus links d p)).
  assert ((Z.of_nat (size links) =? 0) = false) as -> by (apply Z.eqb_neq; lia).
  rewrite (Qsum_bonus (fun p => bool_decide (p ∈ links))).
  rewrite dict_length_keys. by field.
Qed.

Section TransitionResults.
Context {R : Type} `{!Random R Q}.
Implicit Types (corpus : dict (gset string)) (w : world R Q).

(** X4.  For a page with links, the values that [transition_model]
    returns sum to [(1 - d) + d * k / num_links], where [k] counts the
    pages of the graph that are among the links of the page.  So with a
    positive damping factor and a link to a page that is not in the
    graph, the sum is below [1]. *)
Theorem transition_model_mass corpus page links (damping_factor : Q) w :
  is_dict corpus ->
  dict_get page corpus = Some links ->
  size links <> 0%nat ->
  exists dist w',
    transition_model corpus page damping_factor w = (Ok dist, w') /\
    (py_sum (dict_values dist) ==
     (1 - damping_factor) +
     damping_factor *
     (inject_Z (Z.of_nat
        (length (filter (fun p => bool_decide (p ∈ links) = true)
                   (dict_keys corpus)))) /
      inject_Z (Z.of_nat (size links))))%Q /\
    ((0 < damping_factor)%Q ->
     (exists link, link ∈ links /\ link ∉ dict_keys corpus) ->
     (py_sum (dict_values dist) < 1)%Q).
Proof.
  intros Hd Hget Hsize.
  eexists _, _. split; [by apply transition_model_run|].
  pose proof (transition_dist_mass corpus page links damping_factor
                Hget Hsize) as Hmass.
  split; [exact Hmass|].
  intros Hpos (link & Hlink & Hout). rewrite Hmass.
  pose proof (length_filter_links_lt (dict_keys corpus) links link
                Hd Hlink Hout) as Hlt.
  set (k := length _) in *.
  assert (0 < inject_Z (Z.of_nat (size links)))%Q as Hl
    by (apply inject_Z_pos; lia).
  assert (inject_Z (Z.of_nat k) / inject_Z (Z.of_nat (size links)) < 1)%Q
    as Hfrac.
  { apply Qlt_shift_div_r; [done|]. rewrite Qmult_1_l.
    rewrite <- Zlt_Qlt. lia. }
  set (q := (inject_Z (Z.of_nat k) / inject_Z (Z.of_nat (size links)))%Q) in *.
  assert (damping_factor * q < damping_factor * 1)%Q; [|lra].
  by apply Qmult_lt_l.
Qed.

(** X5.  With a damping factor in (0, 1), every value that
    [transition_model] returns for a page whose links lead to pages of
    the graph is a probability: above [0] and at most [1]. *)
Theorem transition_model_values corpus page links (damping_factor : Q) w :
  is_dict corpus ->
  dict_get page corpus = Some links ->
  (forall p, p ∈ links -> p ∈ dict_keys corpus) ->
  (0 < damping_factor)%Q -> (damping_factor < 1)%Q ->
  exists dist,
    transition_model corpus page damping_factor w = (Ok dist, w) /\
    forall p v, dict_get p dist = Some v -> (0 < v)%Q /\ (v <= 1)%Q.
Proof.
  intros Hd Hget Hsub Hd0 Hd1.
  pose proof (transition_dist_sum corpus page links damping_factor
                Hd Hget Hsub) as Hsum.
  exists (transition_dist corpus links damping_factor).
  rewrite (transition_model_run _ _ _ _ _ Hd Hget).
  unfold after_sum_check. rewrite (sum_check_passes _ Hsum).
  split; [done|].
  intros p v Hv.
  assert (p ∈ dict_keys corpus) as Hp.
  { apply dict_get_Some_keys in Hv. unfold transition_dist in Hv.
    by rewrite dict_keys_tabulate in Hv. }
  unfold transition_dist in Hv. rewrite dict_get_tabulate in Hv by done.
  injection Hv as <-.
  split; [by eapply transition_value_pos|].
  rewrite <- Hsum, py_sum_exact. unfold transition_dist.
  rewrite dict_values_tabulate.
  apply (Qsum_fmap_elem_le (transition_value corpus links damping_factor));
    [|done].
  intros q _. apply Qlt_le_weak. by eapply transition_value_pos.
Qed.

End TransitionResults.

(** * More about [sample_pagerank] *)

(** X6.  With [n = 0] and a graph that has a page, [sample_pagerank]
    raises [ZeroDivisionError], from the division of the first counter by
    [n]; it draws nothing and prints nothing.  This holds for every
    arithmetic and every generator. *)
Theorem sample_pagerank_zero_samples {R F : Type} `{!PyFloat F}
    `{!Random R F} (corpus : dict (gset string)) (damping_factor : F)
    (w : world R F) :
  is_dict corpus ->
  corpus ≠ [] ->
  sample_pagerank corpus damping_factor 0 w = (Raise ZeroDivisionError, w).
Proof.
  intros Hd Hne. unfold sample_pagerank, sample_counts.
  unfold bind at 1. unfold bind at 1.
  rewrite (for_each_tabulate _ (fun _ => 0) _ [] w Hd);
    [|intros; apply not_elem_of_nil|done].
  rewrite app_nil_l. change (range 0) with (@nil Z). cbn [for_each].
  unfold bind at 1. unfold ret at 1. cbn [snd].
  destruct corpus as [|[k links] corpus]; [done|].
  reflexivity.
Qed.

(** The check of the rounded sum fails on a sum equal to [0]. *)
Lemma sum_check_fails_zero (s : Q) :
  (s == 0)%Q -> fne (fround s 5) (of_int 1) = true.
Proof.
  intros H. simpl. unfold Qround_digits.
  rewrite (round_half_even_comp (s * inject_Z 10 ^ 5) 0).
  - reflexivity.
  - rewrite H. reflexivity.
Qed.

Section SampleResults.
Context {R : Type} `{!Random R Q}.
Implicit Types (corpus : dict (gset string)) (w : world R Q).

(** X7.  With a negative [n] the loop is not entered, every counter is
    [0 / n = 0], the check of the sum fails and [sample_pagerank] raises
    [NameError]; the same happens with [n = 0] on the empty graph.
    Nothing is drawn or printed. *)
Theorem sample_pagerank_no_samples corpus (damping_factor : Q) (n : Z) w :
  is_dict corpus ->
  n < 0 \/ (n = 0 /\ corpus = []) ->
  sample_pagerank corpus damping_factor n w =
    (Raise (NameError "trans_mod"), w).
Proof.
  intros Hd [Hn | [-> ->]]; [|reflexivity].
  assert (sample_counts corpus damping_factor n w =
          (Ok (tabulate (fun _ => fdiv (of_int 0) (of_int n))
                 (dict_keys corpus)), w)) as Hcounts.
  { unfold sample_counts. unfold bind at 1.
    rewrite (for_each_tabulate _ (fun _ => 0) _ [] w Hd);
      [|intros; apply not_elem_of_nil|done].
    rewrite app_nil_l. unfold range.
    replace (Z.to_nat n) with 0%nat by lia. cbn [seq fmap list_fmap for_each].
    unfold bind at 1. unfold ret at 1. cbn [snd].
    apply map_M_truediv_tabulate. lia. }
  unfold sample_pagerank, bind. rewrite Hcounts.
  rewrite sum_check_fails_zero; [done|].
  rewrite py_sum_exact, dict_values_tabulate.
  rewrite (Qsum_fmap_ext _ (fun _ => (if false then 0 else 0) + 0)%Q).
  - rewrite (Qsum_bonus (fun _ => false) 0 0). ring.
  - intros p _. rewrite fdiv_exact. cbn [of_int ExactQ].
    change (inject_Z 0) with 0%Q. unfold Qdiv. ring.
Qed.

End SampleResults.

Section SampleWalkResults.
Context {R : Type} `{!Random R Q} `{!RandomLaws R}.
Implicit Types (corpus : dict (gset string)) (w : world R Q).

(** A run of [sample_pagerank] with [n >= 1]: the samples and the
    result. *)
Lemma sample_pagerank_run corpus (damping_factor : Q) (n : Z) w :
  is_dict corpus ->
  corpus ≠ [] ->
  (0 < damping_factor)%Q -> (damping_factor < 1)%Q ->
  1 <= n ->
  exists samples w1,
    spec_samples corpus damping_factor (Z.to_nat n) w = (Ok samples, w1) /\
    Z.of_nat (length samples) = n /\
    Forall (fun s => s ∈ dict_keys corpus) samples /\
    sample_counts corpus damping_factor n w =
      (Ok (spec_sample_rank corpus n samples), w1) /\
    (py_sum (dict_values (spec_sample_rank corpus n samples)) == 1)%Q.
Proof.
  intros Hd Hne Hd0 Hd1 Hn.
  assert (dict_keys corpus ≠ []) as Hkeys by (by destruct corpus).
  destruct (py_random_choice_elem (dict_keys corpus) w Hkeys)
    as (s & wa & Hfirst & Hs).
  destruct (Z.to_nat n) as [|k] eqn:Hk; [lia|].
  destruct (spec_walk_total corpus damping_factor k s wa Hd Hs Hd0 Hd1)
    as (rest & w1 & Hwalk & Hlen & Hall).
  exists (s :: rest), w1.
  assert (Z.of_nat (length (s :: rest)) = n) as Hlength by (simpl; lia).
  assert (Forall (fun s => s ∈ dict_keys corpus) (s :: rest)) as Hall'
    by (by constructor).
  split; [|split; [done|split; [done|split]]].
  - cbn [spec_samples]. unfold bind. by rewrite Hfirst, Hwalk.
  - unfold sample_counts. unfold bind at 1.
    rewrite (for_each_tabulate _ (fun _ => 0) _ [] w Hd);
      [|intros; apply not_elem_of_nil|done].
    rewrite app_nil_l, (range_pos n Hn), Hk.
    replace (S k - 1)%nat with k by lia.
    cbn [for_each]. unfold bind at 1. unfold bind at 1.
    rewrite (sample_step_None _ _ _ _ w s wa Hd Hfirst Hs).
    assert (length (Z.of_nat <$> seq 1 k) = k) as Hidx
      by (by rewrite length_fmap, length_seq).
    rewrite <- Hidx in Hwalk.
    destruct (sample_loop_walk corpus damping_factor _ s
                (fun p => 0 + count_visits p [s]) wa rest w1
                Hd Hs Hwalk Hall) as [final ->].
    cbn [snd]. rewrite map_M_truediv_tabulate by lia.
    unfold spec_sample_rank. do 2 f_equal. apply tabulate_ext.
    intros p _. do 2 f_equal.
    rewrite (count_visits_cons p s rest), (count_visits_cons p s []).
    unfold count_visits at 1. simpl. lia.
  - apply spec_sample_rank_sum; [done | done | done | lia].
Qed.

(** X8.  For a graph with a page, a damping factor in (0, 1) and
    [n >= 1], [sample_pagerank] returns a dict with the pages of the
    graph as keys, in their order, and every value between [0] and
    [1]. *)
Theorem sample_pagerank_values corpus (damping_factor : Q) (n : Z) w :
  is_dict corpus ->
  corpus ≠ [] ->
  (0 < damping_factor)%Q -> (damping_factor < 1)%Q ->
  1 <= n ->
  exists result w',
    sample_pagerank corpus damping_factor n w = (Ok result, w') /\
    dict_keys result = dict_keys corpus /\
    forall p v, dict_get p result = Some v -> (0 <= v)%Q /\ (v <= 1)%Q.
Proof.
  intros Hd Hne Hd0 Hd1 Hn.
  destruct (sample_pagerank_run corpus damping_factor n w Hd Hne Hd0 Hd1 Hn)
    as (samples & w1 & _ & Hlen & _ & Hcounts & Hsum).
  eexists (spec_sample_rank corpus n samples), _. split.
  { unfold sample_pagerank, bind. rewrite Hcounts.
    rewrite (sum_check_passes _ Hsum). unfold print, ret. reflexivity. }
  unfold spec_sample_rank. split; [apply dict_keys_tabulate|].
  intros p v Hv.
  assert (p ∈ dict_keys corpus) as Hp.
  { apply dict_get_Some_keys in Hv. by rewrite dict_keys_tabulate in Hv. }
  rewrite dict_get_tabulate in Hv by done. injection Hv as <-.
  pose proof (fdiv_exact (of_int (count_visits p samples)) (of_int n)) as Hq.
  cbn [of_int ExactQ] in Hq.
  assert (0 < inject_Z n)%Q as Hnpos by (apply inject_Z_pos; lia).
  assert (0 <= count_visits p samples <= n) as [Hc0 Hc1].
  { unfold count_visits. pose proof (length_filter (fun s => s = p) samples).
    lia. }
  split; rewrite Hq.
  - apply Qle_shift_div_l; [done|]. rewrite Qmult_0_l.
    change 0%Q with (inject_Z 0). by rewrite <- Zle_Qle.
  - apply Qle_shift_div_r; [done|]. rewrite Qmult_1_l.
    by rewrite <- Zle_Qle.
Qed.

(** On a graph whose links lead to its own pages the walk prints
    nothing. *)
Lemma spec_walk_stdout corpus (damping_factor : Q) (k : nat) current w
    samples w1 :
  is_dict corpus ->
  (forall page links, dict_get page corpus = Some links ->
     forall p, p ∈ links -> p ∈ dict_keys corpus) ->
  current ∈ dict_keys corpus ->
  spec_walk k corpus damping_factor current w = (Ok samples, w1) ->
  Forall (fun s => s ∈ dict_keys corpus) samples ->
  stdout w1 = stdout w.
Proof.
  intros Hd Hclosed. revert current w samples.
  induction k as [|k IH]; intros current w samples Hcur Hwalk Hall.
  - cbn [spec_walk] in Hwalk. unfold ret in Hwalk. by injection Hwalk as _ <-.
  - destruct (dict_get_keys _ _ Hcur) as [links Hget].
    cbn [spec_walk] in Hwalk. unfold bind at 1 in Hwalk.
    rewrite (transition_model_run _ _ _ _ _ Hd Hget) in Hwalk.
    unfold after_sum_check in Hwalk.
    rewrite (sum_check_passes _
               (transition_dist_sum corpus current links damping_factor
                  Hd Hget (Hclosed current links Hget))) in Hwalk.
    unfold bind at 1, draw_weighted, bind at 1, py_random_choices in Hwalk.
    destruct (random_choices _ _ (rng w)) as [[drawn| |] r]; [|done|done].
    destruct (list_pop drawn (World r (stdout w))) as [[next| |] w2] eqn:Hpop;
      [|done|done].
    assert (w2 = World r (stdout w)) as ->.
    { unfold list_pop in Hpop. destruct (last drawn); [|done].
      unfold ret in Hpop. by injection Hpop as _ <-. }
    unfold bind in Hwalk.
    destruct (spec_walk k corpus damping_factor next (World r (stdout w)))
      as [[rest| |] w3] eqn:Hrest; [|done|done].
    unfold ret in Hwalk. injection Hwalk as <- <-.
    apply Forall_cons in Hall as [Hnext Hall].
    by rewrite (IH next _ rest Hnext Hrest Hall).
Qed.

(** A run of [sample_pagerank] on a graph whose links lead to its own
    pages: the result and the world it leaves. *)
Lemma sample_pagerank_closed_run corpus (damping_factor : Q) (n : Z) w :
  is_dict corpus ->
  corpus ≠ [] ->
  (forall page links, dict_get page corpus = Some links ->
     forall p, p ∈ links -> p ∈ dict_keys corpus) ->
  (0 < damping_factor)%Q -> (damping_factor < 1)%Q ->
  1 <= n ->
  exists samples r',
    sample_pagerank corpus damping_factor n w =
      (Ok (spec_sample_rank corpus n samples),
       World r'
         (stdout w ++
          [SumOfSample
             (py_sum (dict_values (spec_sample_rank corpus n samples)))])) /\
    (py_sum (dict_values (spec_sample_rank corpus n samples)) == 1)%Q.
Proof.
  intros Hd Hne Hclosed Hd0 Hd1 Hn.
  destruct (sample_pagerank_run corpus damping_factor n w Hd Hne Hd0 Hd1 Hn)
    as (samples & w1 & Hsamples & Hlen & Hall & Hcounts & Hsum).
  assert (stdout w1 = stdout w) as Hout.
  { destruct (Z.to_nat n) as [|k] eqn:Hk; [lia|].
    cbn [spec_samples] in Hsamples. unfold bind, py_random_choice in Hsamples.
    destruct (random_choice (dict_keys corpus) (rng w)) as [[s| |] r];
      [|done|done].
    destruct (spec_walk k corpus damping_factor s (World r (stdout w)))
      as [[rest| |] w2] eqn:Hwalk; [|done|done].
    unfold ret in Hsamples. injection Hsamples as <- <-.
    apply Forall_cons in Hall as [Hs Hall].
    by rewrite (spec_walk_stdout corpus damping_factor k s _ rest w2
                  Hd Hclosed Hs Hwalk Hall). }
  exists samples, (rng w1). split; [|done].
  unfold sample_pagerank, bind. rewrite Hcounts.
  rewrite (sum_check_passes _ Hsum). unfold print, ret. by rewrite Hout.
Qed.

(** X9.  On a graph whose links lead to its own pages, with a damping
    factor in (0, 1) and [n >= 1], [sample_pagerank] prints one line and
    no other: the sum of the values it returns, which is [1].  The
    error line of [transition_model] never appears. *)
Theorem sample_pagerank_prints_sum corpus (damping_factor : Q) (n : Z) w :
  is_dict corpus ->
  corpus ≠ [] ->
  (forall page links, dict_get page corpus = Some links ->
     forall p, p ∈ links -> p ∈ dict_keys corpus) ->
  (0 < damping_factor)%Q -> (damping_factor < 1)%Q ->
  1 <= n ->
  exists result w' total,
    sample_pagerank corpus damping_factor n w = (Ok result, w') /\
    stdout w' = stdout w ++ [SumOfSample total] /\
    total = py_sum (dict_values result) /\
    (total == 1)%Q.
Proof.
  intros Hd Hne Hclosed Hd0 Hd1 Hn.
  destruct (sample_pagerank_closed_run corpus damping_factor n w
              Hd Hne Hclosed Hd0 Hd1 Hn) as (samples & r' & Hrun & Hsum).
  eexists _, _, _. split; [exact Hrun|]. by repeat split.
Qed.

(** On the graph without pages the first draw fails. *)
Lemma sample_pagerank_empty_run (damping_factor : Q) (n : Z) w :
  1 <= n ->
  exists r',
    sample_pagerank [] damping_factor n w =
      (Raise IndexError, World r' (stdout w)).
Proof.
  intros Hn. unfold sample_pagerank, sample_counts. rewrite (range_pos n Hn).
  simpl. unfold bind, py_random_choice, ret. simpl.
  pose proof (random_choice_empty (rng w)) as He.
  destruct (random_choice [] (rng w)) as [o r]. simpl in He. subst o.
  by exists r.
Qed.

End SampleWalkResults.

(** * More about [iterate_pagerank] *)

(** The values of the ranks of an iteration, page by page. *)
Lemma dict_values_spec_ranks (corpus : dict (gset string)) (d : Q) (k : nat) :
  dict_values (spec_ranks corpus d k) =
  rank_of (spec_ranks corpus d k) <$> dict_keys corpus.
Proof.
  pose proof (dict_keys_spec_ranks corpus d k) as Hkeys.
  destruct k as [|k]; cbn [spec_ranks] in *.
  - unfold spec_init. rewrite dict_values_tabulate.
    apply list_fmap_ext. intros i p Hp.
    rewrite rank_of_tabulate; [done|]. by eapply list_elem_of_lookup_2.
  - unfold spec_sweep in *. rewrite dict_values_tabulate.
    rewrite dict_keys_tabulate in Hkeys. rewrite Hkeys.
    apply list_fmap_ext. intros i p Hp.
    rewrite rank_of_tabulate; [done|]. by eapply list_elem_of_lookup_2.
Qed.

Lemma Qsum_const {A} (c : Q) (l : list A) :
  (Qsum ((fun _ => c) <$> l) == inject_Z (Z.of_nat (length l)) * c)%Q.
Proof.
  rewrite (Qsum_fmap_ext _ (fun _ => (if false then 0 else 0) + c)%Q)
    by (intros; ring).
  rewrite (Qsum_bonus (fun _ => false) 0 c). ring.
Qed.

(** The sum of the new ranks: the share [1 - d], and [d] times what the
    pages hand out. *)
Lemma sweep_total (corpus : dict (gset string)) (d : Q) (x : dict Q) :
  corpus ≠ [] ->
  (Qsum (spec_new_rank corpus d x <$> dict_keys corpus) ==
   (1 - d) +
   d * Qsum ((fun q =>
                Qsum ((fun p => if links_to corpus p q then
                                  rank_of x q / inject_Z (out_degree corpus q)
                                else 0) <$> dict_keys corpus))
             <$> dict_keys corpus))%Q.
Proof.
  intros Hne.
  rewrite (Qsum_fmap_ext _ _ _
             (fun p _ => spec_new_rank_indicator corpus d x p)).
  rewrite (Qsum_plus (fun _ => (1 - d) / inject_Z (Z.of_nat (length corpus)))%Q).
  rewrite Qsum_const, dict_length_keys, Qsum_scale_l.
  rewrite (Qsum_swap (fun p q => if links_to corpus p q then
                                   rank_of x q / inject_Z (out_degree corpus q)
                                 else 0)%Q).
  assert (~ (inject_Z (Z.of_nat (length corpus)) == 0)%Q) as Hn.
  { apply inject_Z_nonzero. destruct corpus; [done | simpl; lia]. }
  set (t := Qsum _). field. done.
Qed.

(** A page with links, all to pages of the graph, hands out all it
    has. *)
Lemma column_exact (corpus : dict (gset string)) (q : string)
    (links : gset string) (a : Q) :
  is_dict corpus ->
  dict_get q corpus = Some links ->
  size links <> 0%nat ->
  (forall p, p ∈ links -> p ∈ dict_keys corpus) ->
  (Qsum ((fun p => if links_to corpus p q then
                     a / inject_Z (out_degree corpus q)
                   else 0) <$> dict_keys corpus) == a)%Q.
Proof.
  intros Hd Hget Hsize Hsub. unfold links_to, out_degree. rewrite Hget.
  rewrite (Qsum_fmap_ext _
             (fun p => (if bool_decide (p ∈ links) then
                          a / inject_Z (Z.of_nat (size links))
                        else 0) + 0)%Q)
    by (intros; ring).
  rewrite (Qsum_bonus (fun p => bool_decide (p ∈ links))).
  rewrite length_filter_links by done.
  field. apply inject_Z_nonzero. lia.
Qed.

(** The ranks of an iteration sum to at most [1]. *)
Lemma spec_ranks_total_le (corpus : dict (gset string)) (d : Q) (k : nat) :
  is_dict corpus ->
  corpus ≠ [] ->
  (0 < d)%Q -> (d < 1)%Q ->
  (Qsum (rank_of (spec_ranks corpus d k) <$> dict_keys corpus) <= 1)%Q.
Proof.
  intros Hd Hne Hd0 Hd1. induction k as [|k IH].
  - cbn [spec_ranks]. unfold spec_init.
    rewrite (Qsum_fmap_ext _
               (fun _ => 1 / inject_Z (Z.of_nat (length corpus)))%Q).
    + rewrite Qsum_const, dict_length_keys.
      assert (~ (inject_Z (Z.of_nat (length corpus)) == 0)%Q) as Hn.
      { apply inject_Z_nonzero. destruct corpus; [done | simpl; lia]. }
      assert (inject_Z (Z.of_nat (length corpus)) *
              (1 / inject_Z (Z.of_nat (length corpus))) == 1)%Q as ->
        by (by field).
      apply Qle_refl.
    + intros p Hp. rewrite rank_of_tabulate by done. apply fdiv_exact.
  - cbn [spec_ranks].
    rewrite (Qsum_fmap_ext _ (spec_new_rank corpus d (spec_ranks corpus d k))).
    2:{ intros p Hp. unfold spec_sweep. rewrite rank_of_tabulate; [done|].
        by rewrite dict_keys_spec_ranks. }
    rewrite sweep_total by done.
    assert (Qsum ((fun q =>
                Qsum ((fun p => if links_to corpus p q then
                         rank_of (spec_ranks corpus d k) q /
                         inject_Z (out_degree corpus q)
                       else 0) <$> dict_keys corpus))
             <$> dict_keys corpus) <=
            Qsum (rank_of (spec_ranks corpus d k) <$> dict_keys corpus))%Q
      as Hcols.
    { apply Qsum_fmap_le. intros q Hq. apply column_bound; [done | done |].
      apply Qlt_le_weak. by apply spec_ranks_pos. }
    pose proof (Qle_trans _ _ _ Hcols IH) as Hs.
    pose proof (Qmult_le_compat_l _ _ d (Qlt_le_weak _ _ Hd0) Hs) as Hds.
    lra.
Qed.

(** On a graph in which every page has links, all to pages of the graph,
    they sum to exactly [1]. *)
Lemma spec_ranks_total_one (corpus : dict (gset string)) (d : Q) (k : nat) :
  is_dict corpus ->
  corpus ≠ [] ->
  (forall page links, dict_get page corpus = Some links ->
     size links <> 0%nat /\ forall p, p ∈ links -> p ∈ dict_keys corpus) ->
  (Qsum (rank_of (spec_ranks corpus d k) <$> dict_keys corpus) == 1)%Q.
Proof.
  intros Hd Hne Hgraph. induction k as [|k IH].
  - cbn [spec_ranks]. unfold spec_init.
    rewrite (Qsum_fmap_ext _
               (fun _ => 1 / inject_Z (Z.of_nat (length corpus)))%Q).
    + rewrite Qsum_const, dict_length_keys.
      assert (~ (inject_Z (Z.of_nat (length corpus)) == 0)%Q) as Hn.
      { apply inject_Z_nonzero. destruct corpus; [done | simpl; lia]. }
      by field.
    + intros p Hp. rewrite rank_of_tabulate by done. apply fdiv_exact.
  - cbn [spec_ranks].
    rewrite (Qsum_fmap_ext _ (spec_new_rank corpus d (spec_ranks corpus d k))).
    2:{ intros p Hp. unfold spec_sweep. rewrite rank_of_tabulate; [done|].
        by rewrite dict_keys_spec_ranks. }
    rewrite sweep_total by done.
    rewrite (Qsum_fmap_ext _ (rank_of (spec_ranks corpus d k))).
    + rewrite IH. ring.
    + intros q Hq. destruct (dict_get_keys _ _ Hq) as [links Hget].
      destruct (Hgraph q links Hget) as [Hsize Hsub].
      by apply (column_exact corpus q links).
Qed.

Lemma fmap_tabulate_snd {A B} (g : A -> B) (f : string -> A)
    (ks : list string) :
  (fun kv : string * A => (kv.1, g kv.2)) <$> tabulate f ks =
  tabulate (fun k => g (f k)) ks.
Proof. unfold tabulate. by rewrite <- list_fmap_compose. Qed.

Lemma spec_ranks_S_tabulate (corpus : dict (gset string)) (d : Q) (k : nat) :
  spec_ranks corpus d (S k) =
  tabulate (spec_new_rank corpus d (spec_ranks corpus d k)) (dict_keys corpus).
Proof. cbn [spec_ranks]. unfold spec_sweep. by rewrite dict_keys_spec_ranks. Qed.

Lemma spec_ranks_total_exact (corpus : dict (gset string)) (d : Q) (k : nat) :
  (py_sum (dict_values (spec_ranks corpus d k)) ==
   Qsum (rank_of (spec_ranks corpus d k) <$> dict_keys corpus))%Q.
Proof. by rewrite py_sum_exact, dict_values_spec_ranks. Qed.

(** Every new rank is at least the share [(1 - d) / num_pages]. *)
Lemma spec_new_rank_ge (corpus : dict (gset string)) (d : Q) (k : nat)
    (p : string) :
  (0 < d)%Q -> (d < 1)%Q ->
  ((1 - d) / inject_Z (Z.of_nat (length corpus)) <=
   spec_new_rank corpus d (spec_ranks corpus d k) p)%Q.
Proof.
  intros Hd0 Hd1. rewrite spec_new_rank_exact.
  assert (0 <= Qsum ((fun q => rank_of (spec_ranks corpus d k) q /
                               inject_Z (out_degree corpus q))
                     <$> spec_parents corpus p))%Q as Hsum.
  { apply Qsum_fmap_nonneg. intros q Hq. apply Qlt_le_weak, Qdiv_pos.
    - apply spec_ranks_pos; [done | done |].
      apply spec_parents_elem in Hq as (links & Hget & _).
      by eapply dict_get_Some_keys.
    - apply inject_Z_pos. by eapply spec_parents_out_degree. }
  pose proof (Qmult_le_0_compat _ _ (Qlt_le_weak _ _ Hd0) Hsum). lra.
Qed.

Lemma geom_mono (d c c' : Q) (k : nat) :
  (0 <= d)%Q -> (c <= c')%Q -> (geom d c k <= geom d c' k)%Q.
Proof.
  intros Hd Hc. induction k as [|k IH]; [done|].
  cbn [geom]. by apply Qmult_le_compat_l.
Qed.

(** The first iteration moves the ranks by at most [2] in all. *)
Lemma l1_first_step (corpus : dict (gset string)) (d : Q) :
  is_dict corpus ->
  corpus ≠ [] ->
  (0 < d)%Q -> (d < 1)%Q ->
  (l1_dist (dict_keys corpus) (spec_ranks corpus d 1) (spec_ranks corpus d 0)
   <= 2)%Q.
Proof.
  intros Hd Hne Hd0 Hd1. unfold l1_dist.
  eapply Qle_trans.
  { apply (Qsum_fmap_le _
             (fun p => rank_of (spec_ranks corpus d 1) p +
                       rank_of (spec_ranks corpus d 0) p)%Q).
    intros p Hp.
    pose proof (spec_ranks_pos corpus d 1 p Hd0 Hd1 Hp).
    pose proof (spec_ranks_pos corpus d 0 p Hd0 Hd1 Hp).
    apply Qabs_Qle_condition. split; lra. }
  rewrite Qsum_plus.
  pose proof (spec_ranks_total_le corpus d 1 Hd Hne Hd0 Hd1).
  pose proof (spec_ranks_total_le corpus d 0 Hd Hne Hd0 Hd1).
  lra.
Qed.

(** After [ceil(2000 / (1 - d))] iterations the maximum change is below
    the threshold. *)
Lemma spec_change_small (corpus : dict (gset string)) (d : Q) :
  is_dict corpus ->
  corpus ≠ [] ->
  (0 < d)%Q -> (d < 1)%Q ->
  (spec_change corpus d (Z.to_nat (Qceiling (2000 / (1 - d)))) < 1 # 1000)%Q.
Proof.
  intros Hd Hne Hd0 Hd1.
  set (K := Z.to_nat (Qceiling (2000 / (1 - d)))).
  eapply Qle_lt_trans; [apply spec_change_le_geom; [done | lra]|].
  eapply Qle_lt_trans.
  { apply (geom_mono d _ 2 K); [lra|]. by apply l1_first_step. }
  pose proof (geom_bernoulli d 2 K ltac:(lra) ltac:(lra) ltac:(lra)) as Hb.
  pose proof (geom_nonneg d 2 K ltac:(lra) ltac:(lra)) as Hg.
  assert (2000 <= inject_Z (Z.of_nat K) * (1 - d))%Q as HK.
  { assert (2000 / (1 - d) <= inject_Z (Z.of_nat K))%Q as Hc.
    { eapply Qle_trans; [apply Qle_ceiling|].
      rewrite <- Zle_Qle. unfold K. lia. }
    assert (2000 == 2000 / (1 - d) * (1 - d))%Q as Heq by (field; lra).
    rewrite Heq at 1. apply Qmult_le_compat_r; lra. }
  set (g := geom d 2 K) in *. set (n := inject_Z (Z.of_nat K)) in *.
  destruct (Qlt_le_dec g (1 # 1000)) as [Hlt|Hge]; [done|].
  exfalso.
  assert ((1 # 1000) * (1 + n * (1 - d)) <= g * (1 + n * (1 - d)))%Q as Hm
    by (apply Qmult_le_compat_r; lra).
  lra.
Qed.

Section IterateResults.
Context {R : Type} `{!Random R Q}.
Implicit Types (corpus : dict (gset string)) (w : world R Q).

(** A run of [iterate_pagerank]: the iteration at which the loop stops
    and the dict that is returned. *)
Lemma iterate_pagerank_run corpus (d : Q) :
  is_dict corpus ->
  corpus ≠ [] ->
  (0 < d)%Q -> (d < 1)%Q ->
  exists j : nat,
    let previous := spec_ranks corpus d j in
    let total := py_sum (dict_values (spec_ranks corpus d (j + 1))) in
    let result :=
      tabulate (fun p => fdiv (spec_new_rank corpus d previous p) total)
        (dict_keys corpus) in
    (spec_change corpus d j < 1 # 1000)%Q /\
    (forall i, (i < j)%nat -> (1 # 1000 <= spec_change corpus d i)%Q) /\
    forall fuel w, (j < fuel)%nat ->
      iterate_pagerank fuel corpus d w =
        (Ok result,
         World (rng w)
           (stdout w ++
            [StableAfter (Z.of_nat j + 2);
             SumOfIterate (py_sum (dict_values result))])).
Proof.
  intros Hd Hne Hd0 Hd1.
  destruct (iterate_loop_terminates (R:=R) corpus d Hd ltac:(lra) Hd1)
    as (j & Hj & Hbefore & Hrun).
  exists j. cbn zeta. split; [done|]. split; [done|].
  intros fuel w Hfuel.
  pose proof (spec_ranks_total_pos corpus d (j + 1) Hne Hd0 Hd1) as Hpos.
  rewrite (iterate_pagerank_finish corpus d fuel _ _ _ w Hd
             (Hrun fuel w Hfuel)).
  - replace (j + 1)%nat with (S j) by lia.
    assert ((fun kv : string * Q =>
               (kv.1, fdiv kv.2
                        (py_sum (dict_values (spec_ranks corpus d (S j))))))
            <$> spec_ranks corpus d (S j) =
            tabulate
              (fun p => fdiv (spec_new_rank corpus d (spec_ranks corpus d j) p)
                          (py_sum (dict_values (spec_ranks corpus d (S j)))))
              (dict_keys corpus)) as ->; [|done].
    generalize (py_sum (dict_values (spec_ranks corpus d (S j)))).
    intros t. rewrite (spec_ranks_S_tabulate corpus d j).
    apply (fmap_tabulate_snd (fun x => fdiv x t)).
  - simpl. destruct (Qeq_bool _ 0) eqn:Hz; [|done].
    apply Qeq_bool_eq in Hz. lra.
Qed.


(** X13.  Two pages that are linked from the same pages get the same
    value in the dict that [iterate_pagerank] returns. *)
Theorem iterate_pagerank_same_parents corpus (damping_factor : Q) w
    (p p' : string) :
  is_dict corpus ->
  corpus ≠ [] ->
  (0 < damping_factor)%Q -> (damping_factor < 1)%Q ->
  p ∈ dict_keys corpus -> p' ∈ dict_keys corpus ->
  (forall q links, dict_get q corpus = Some links ->
     p ∈ links <-> p' ∈ links) ->
  exists j : nat,
    forall fuel, (j < fuel)%nat ->
      exists result w' v,
        iterate_pagerank fuel corpus damping_factor w = (Ok result, w') /\
        dict_get p result = Some v /\
        dict_get p' result = Some v.
Proof.
  intros Hd Hne Hd0 Hd1 Hp Hp' Hsame.
  destruct (iterate_pagerank_run corpus damping_factor Hd Hne Hd0 Hd1)
    as (j & _ & _ & Hrun).
  exists j. intros fuel Hfuel.
  eexists _, _, _. split; [exact (Hrun fuel w Hfuel)|].
  rewrite !dict_get_tabulate by done. split; [done|].
  do 2 f_equal. unfold spec_new_rank.
  assert (spec_parents corpus p' = spec_parents corpus p) as ->; [|done].
  unfold spec_parents. apply list_filter_iff. intros q. unfold links_to.
  destruct (dict_get q corpus) as [links|] eqn:Hget; [|done].
  rewrite !bool_decide_eq_true. symmetry. by eapply Hsame.
Qed.

End IterateResults.

(** * The program as a whole *)



Section MainResults.
Context {R : Type} `{!Random R Q} `{!RandomLaws R} `{!Files}.



(** X15.  Started with a number of arguments other than one, [main]
    exits with the usage message and does nothing else.  When the
    directory cannot be listed, or one of its files ending in [.html]
    cannot be read, [main] ends with the uncaught exception of the file
    system.  Started with a directory that holds no file ending in
    [.html], it ends with an uncaught [IndexError], raised by the first
    draw of [sample_pagerank] on the empty graph.  In all three cases no
    line is printed. *)
Theorem main_failures (fuel : nat) (r : R) :
  (forall argv,
     length argv <> 2%nat ->
     main fuel argv [] r =
       (SystemExit "Usage: python pagerank.py corpus", [], r)) /\
  (forall script directory e,
     listdir directory = inl e \/
     (exists names, listdir directory = inr names /\
                    first_unreadable directory names = Some e) ->
     main fuel [script; directory] [] r = (Uncaught e, [], r)) /\
  (forall script directory names,
     listdir directory = inr names ->
     NoDup names ->
     html_files names = [] ->
     exists r', main fuel [script; directory] [] r =
                  (Uncaught IndexError, [], r')).
Proof.
  split; [|split].
  - intros argv Hlen. unfold main.
    assert ((Z.of_nat (length argv) =? 2) = false) as ->
      by (apply Z.eqb_neq; lia).
    reflexivity.
  - intros script directory e Hfails. unfold main.
    change (Z.of_nat (length [script; directory]) =? 2) with true.
    cbn [negb lookup list_lookup].
    unfold call. by rewrite (crawl_raises directory e (World r []) Hfails).
  - intros script directory names Hls Hnd Hhtml. unfold main.
    change (Z.of_nat (length [script; directory]) =? 2) with true.
    cbn [negb lookup list_lookup].
    assert (first_unreadable directory names = None) as Hread.
    { apply first_unreadable_None. intros f Hf Hf'.
      assert (f ∈ html_files names) as Hin
        by (unfold html_files; by apply list_elem_of_filter).
      rewrite Hhtml in Hin. by apply elem_of_nil in Hin. }
    unfold call at 1.
    rewrite (crawl_run directory names (World r []) Hls Hnd Hread).
    rewrite Hhtml. cbn [tabulate fmap list_fmap stdout rng app].
    destruct (sample_pagerank_empty_run DAMPING SAMPLES (World r []))
      as [r' Hrun]; [done|].
    unfold call. rewrite Hrun. cbn [stdout rng fmap list_fmap app].
    by exists r'.
Qed.

End MainResults.

(** * Closed instances of the further theorems *)

Lemma dict_get_In {V} (k : string) (v : V) (d : dict V) :
  dict_get k d = Some v -> (k, v) ∈ d.
Proof.
  induction d as [|[k' v'] d IH]; simpl; [done|].
  destruct (decide (k = k')) as [->|]; intros Hg.
  - injection Hg as ->. apply elem_of_cons. by left.
  - apply elem_of_cons. right. by apply IH.
Qed.

(** A test of the link sets, one after the other, decides whether all
    links lead to pages of the graph. *)
Lemma closed_links_check (corpus : dict (gset string)) :
  Forall (fun kv : string * gset string =>
            set_Forall (fun p => p ∈ dict_keys corpus) kv.2) corpus ->
  forall page links, dict_get page corpus = Some links ->
    forall p, p ∈ links -> p ∈ dict_keys corpus.
Proof.
  intros Hall page links Hget p Hp.
  apply dict_get_In in Hget.
  by apply (proj1 (Forall_forall _ _) Hall _ Hget p).
Qed.

Lemma links_check (P : gset string -> Prop) (corpus : dict (gset string)) :
  Forall (fun kv : string * gset string => P kv.2) corpus ->
  forall page links, dict_get page corpus = Some links -> P links.
Proof.
  intros Hall page links Hget. apply dict_get_In in Hget.
  by apply (proj1 (Forall_forall _ _) Hall _ Hget).
Qed.

Ltac readable_closed :=
  let f := fresh "f" in
  let Hf := fresh "Hf" in
  intros f Hf _;
  repeat (apply elem_of_cons in Hf as [->|Hf]; [by eexists|]);
  by apply elem_of_nil in Hf.


Lemma crawl_links_witness :
  exists contents,
    read_file (path_join "corpus" "2.html") = inr contents /\
    (forall link, link ∈ ({["1.html"; "3.html"]} : gset string) <->
       link ∈ findall_href contents /\
       link <> "2.html" /\
       link ∈ dict_keys corpus_pages) /\
    ("2.html" ∉ ({["1.html"; "3.html"]} : gset string)) /\
    (forall link, link ∈ ({["1.html"; "3.html"]} : gset string) ->
       link ∈ dict_keys corpus_pages).
Proof.
  refine (crawl_links (R:=list Q) (F:=Q) "corpus"
            ["1.html"; "2.html"; "notes.txt"; "3.html"] w0 corpus_pages
            "2.html" {["1.html"; "3.html"]} _ _ _ _).
  - reflexivity.
  - decide_closed.
  - vm_compute. reflexivity.
  - vm_compute. reflexivity.
Defined.

Lemma crawl_raises_first_error_witness :
  run (crawl "broken") = (Raise IsADirectoryError, w0) /\
  run (crawl "missing") = (Raise FileNotFoundError, w0).
Proof.
  split.
  - refine (proj2 (crawl_raises_first_error (R:=list Q) (F:=Q) "broken"
                     IsADirectoryError w0)
              ["1.html"] "old.html" ["2.html"] _ _ _ _).
    + reflexivity.
    + readable_closed.
    + reflexivity.
    + reflexivity.
  - refine (proj1 (crawl_raises_first_error (R:=list Q) (F:=Q) "missing"
                     FileNotFoundError w0) _).
    reflexivity.
Defined.

Lemma crawl_then_transition_model_witness :
  exists dist,
    run (transition_model corpus_pages "1.html" (85 # 100)%Q) = (Ok dist, w0)
    /\
    dict_keys dist = dict_keys corpus_pages /\
    (py_sum (dict_values dist) == 1)%Q.
Proof.
  refine (crawl_then_transition_model "corpus" "1.html"
            ["1.html"; "2.html"; "notes.txt"; "3.html"] (85 # 100)%Q w0
            corpus_pages _ _ _ _).
  - reflexivity.
  - decide_closed.
  - vm_compute. reflexivity.
  - decide_closed.
Defined.

Lemma transition_model_mass_witness :
  exists dist w',
    run (transition_model stray_link "A" (85 # 100)%Q) = (Ok dist, w') /\
    (py_sum (dict_values dist) ==
     (1 - (85 # 100)) +
     (85 # 100) *
     (inject_Z (Z.of_nat
        (length (filter (fun p => bool_decide
                           (p ∈ ({["B"]} : gset string)) = true)
                   (dict_keys stray_link)))) /
      inject_Z (Z.of_nat (size ({["B"]} : gset string)))))%Q /\
    ((0 < 85 # 100)%Q ->
     (exists link, link ∈ ({["B"]} : gset string) /\
                   link ∉ dict_keys stray_link) ->
     (py_sum (dict_values dist) < 1)%Q).
Proof.
  refine (transition_model_mass stray_link "A" {["B"]} (85 # 100)%Q w0 _ _ _).
  - unfold is_dict. decide_closed.
  - reflexivity.
  - vm_compute. lia.
Defined.

Lemma transition_model_values_witness :
  exists dist,
    run (transition_model hub "A" (85 # 100)%Q) = (Ok dist, w0) /\
    forall p v, dict_get p dist = Some v -> (0 < v)%Q /\ (v <= 1)%Q.
Proof.
  refine (transition_model_values hub "A" {["B"; "C"]} (85 # 100)%Q w0
            _ _ _ _ _).
  - unfold is_dict. decide_closed.
  - reflexivity.
  - apply (closed_links_check hub) with (page := "A");
      [decide_closed | reflexivity].
  - reflexivity.
  - reflexivity.
Defined.

Lemma sample_pagerank_zero_samples_witness :
  run (sample_pagerank hub (85 # 100)%Q 0) = (Raise ZeroDivisionError, w0).
Proof.
  refine (sample_pagerank_zero_samples hub (85 # 100)%Q w0 _ _).
  - unfold is_dict. decide_closed.
  - discriminate.
Defined.

Lemma sample_pagerank_no_samples_witness :
  run (sample_pagerank hub (85 # 100)%Q (-3)) =
    (Raise (NameError "trans_mod"), w0).
Proof.
  refine (sample_pagerank_no_samples hub (85 # 100)%Q (-3) w0 _ _).
  - unfold is_dict. decide_closed.
  - left. lia.
Defined.

Lemma sample_pagerank_values_witness :
  exists result w',
    run (sample_pagerank hub (85 # 100)%Q 4) = (Ok result, w') /\
    dict_keys result = dict_keys hub /\
    forall p v, dict_get p result = Some v -> (0 <= v)%Q /\ (v <= 1)%Q.
Proof.
  refine (sample_pagerank_values hub (85 # 100)%Q 4 w0 _ _ _ _ _).
  - unfold is_dict. decide_closed.
  - discriminate.
  - reflexivity.
  - reflexivity.
  - lia.
Defined.

Lemma sample_pagerank_prints_sum_witness :
  exists result w' total,
    run (sample_pagerank hub (85 # 100)%Q 4) = (Ok result, w') /\
    stdout w' = stdout w0 ++ [SumOfSample total] /\
    total = py_sum (dict_values result) /\
    (total == 1)%Q.
Proof.
  refine (sample_pagerank_prints_sum hub (85 # 100)%Q 4 w0 _ _ _ _ _ _).
  - unfold is_dict. decide_closed.
  - discriminate.
  - apply closed_links_check. decide_closed.
  - reflexivity.
  - reflexivity.
  - lia.
Defined.

Lemma iterate_pagerank_same_parents_witness :
  exists j : nat,
    forall fuel, (j < fuel)%nat ->
      exists result w' v,
        run (iterate_pagerank fuel hub (85 # 100)%Q) = (Ok result, w') /\
        dict_get "B" result = Some v /\
        dict_get "C" result = Some v.
Proof.
  refine (iterate_pagerank_same_parents hub (85 # 100)%Q w0 "B" "C"
            _ _ _ _ _ _ _).
  - unfold is_dict. decide_closed.
  - discriminate.
  - reflexivity.
  - reflexivity.
  - decide_closed.
  - decide_closed.
  - apply (links_check (fun links => "B" ∈ links <-> "C" ∈ links)).
    decide_closed.
Defined.


Lemma main_failures_witness :
  main 0 ["pagerank.py"] [] (rng w0) =
    (SystemExit "Usage: python pagerank.py corpus", [], rng w0) /\
  main 0 ["pagerank.py"; "corpus"; "more"] [] (rng w0) =
    (SystemExit "Usage: python pagerank.py corpus", [], rng w0) /\
  main 0 ["pagerank.py"; "missing"] [] (rng w0) =
    (Uncaught FileNotFoundError, [], rng w0) /\
  main 0 ["pagerank.py"; "corpus/notes.txt"] [] (rng w0) =
    (Uncaught NotADirectoryError, [], rng w0) /\
  main 0 ["pagerank.py"; "broken"] [] (rng w0) =
    (Uncaught IsADirectoryError, [], rng w0) /\
  exists r', main 0 ["pagerank.py"; "empty"] [] (rng w0) =
               (Uncaught IndexError, [], r').
Proof.
  destruct (main_failures (R:=list Q) 0%nat (rng w0))
    as (Husage & Hfiles & Hempty).
  split; [apply Husage; simpl; lia|].
  split; [apply Husage; simpl; lia|].
  split; [apply Hfiles; left; reflexivity|].
  split; [apply Hfiles; left; reflexivity|].
  split.
  - apply Hfiles. right. exists ["1.html"; "old.html"; "2.html"].
    split; reflexivity.
  - apply (Hempty "pagerank.py" "empty" ["notes.txt"]).
    + reflexivity.
    + decide_closed.
    + reflexivity.
Defined.
